(** * bot_address_book_9.py: a shallow embedding and its checked properties

    The program is a small interactive contact book.  Python values are
    modelled as follows.

    - [str] is a sequence of Unicode code points: [pystr := list N].
      ASCII literals are written [py "..."].
    - An exception raised by a call is the [Raise] case of [result].
    - [AddressBook.records] is a [dict]; Python dictionaries keep
      insertion order and have unique keys, so the dictionary is an
      association list ([PyDict.t]) with the invariant [PyDict.wf].
    - Handlers mutate the address book they are given; they are
      functions in the state-and-exception monad [M]. *)

From Stdlib Require Import List PeanoNat NArith Bool String Ascii Lia.
Import ListNotations.

Local Open Scope N_scope.
Local Open Scope list_scope.

(** ** Python strings *)

Definition pystr : Type := list N.

(** An ASCII literal as a Python string. *)
Definition py (s : string) : pystr :=
  map N_of_ascii (list_ascii_of_string s).

Arguments py s%_string.

Fixpoint pystr_eqb (a b : pystr) : bool :=
  match a, b with
  | [], [] => true
  | x :: a', y :: b' => (x =? y) && pystr_eqb a' b'
  | _, _ => false
  end.

Definition in_ranges (table : list (N * N)) (c : N) : bool :=
  existsb (fun r => (fst r <=? c) && (c <=? snd r)) table.

(** Code points [c] with [chr(c).isspace()], which are also the ones
    [str.strip()] removes (CPython 3.11, Unicode 14.0.0). *)
Definition whitespace_table : list (N * N) :=
  [(9, 13); (28, 32); (133, 133); (160, 160); (5760, 5760); (8192, 8202);
   (8232, 8233); (8239, 8239); (8287, 8287); (12288, 12288)].

Definition isspace_cp : N -> bool := in_ranges whitespace_table.

(** Code points [c] with [chr(c).isdigit()]: Numeric_Type Decimal or
    Digit (CPython 3.11, Unicode 14.0.0). *)
Definition digit_table : list (N * N) :=
  [(48, 57); (178, 179); (185, 185); (1632, 1641); (1776, 1785);
   (1984, 1993); (2406, 2415); (2534, 2543); (2662, 2671); (2790, 2799);
   (2918, 2927); (3046, 3055); (3174, 3183); (3302, 3311); (3430, 3439);
   (3558, 3567); (3664, 3673); (3792, 3801); (3872, 3881); (4160, 4169);
   (4240, 4249); (4969, 4977); (6112, 6121); (6160, 6169); (6470, 6479);
   (6608, 6618); (6784, 6793); (6800, 6809); (6992, 7001); (7088, 7097);
   (7232, 7241); (7248, 7257); (8304, 8304); (8308, 8313); (8320, 8329);
   (9312, 9320); (9332, 9340); (9352, 9360); (9450, 9450); (9461, 9469);
   (9471, 9471); (10102, 10110); (10112, 10120); (10122, 10130);
   (42528, 42537); (43216, 43225); (43264, 43273); (43472, 43481);
   (43504, 43513); (43600, 43609); (44016, 44025); (65296, 65305);
   (66720, 66729); (68160, 68163); (68912, 68921); (69216, 69224);
   (69714, 69722); (69734, 69743); (69872, 69881); (69942, 69951);
   (70096, 70105); (70384, 70393); (70736, 70745); (70864, 70873);
   (71248, 71257); (71360, 71369); (71472, 71481); (71904, 71913);
   (72016, 72025); (72784, 72793); (73040, 73049); (73120, 73129);
   (92768, 92777); (92864, 92873); (93008, 93017); (120782, 120831);
   (123200, 123209); (123632, 123641); (125264, 125273);
   (127232, 127242); (130032, 130041)].

Definition isdigit_cp : N -> bool := in_ranges digit_table.

(** [s.isdigit()]: every character is a digit and there is at least one. *)
Definition isdigit (s : pystr) : bool :=
  match s with
  | [] => false
  | _ => forallb isdigit_cp s
  end.

(** [len(s)]. *)
Definition len (s : pystr) : N := N.of_nat (List.length s).

Fixpoint lstrip (s : pystr) : pystr :=
  match s with
  | [] => []
  | c :: s' => if isspace_cp c then lstrip s' else s
  end.

Definition rstrip (s : pystr) : pystr := rev (lstrip (rev s)).

(** [s.strip()]. *)
Definition strip (s : pystr) : pystr := rstrip (lstrip s).

(** Truth value of a string: non-empty. *)
Definition truthy (s : pystr) : bool :=
  match s with [] => false | _ => true end.

(** [sep.join(parts)]. *)
Fixpoint join (sep : pystr) (parts : list pystr) : pystr :=
  match parts with
  | [] => []
  | [p] => p
  | p :: rest => p ++ sep ++ join sep rest
  end.

(** [s.startswith(prefix)]. *)
Fixpoint startswith (s prefix : pystr) : bool :=
  match prefix, s with
  | [], _ => true
  | p :: prefix', c :: s' => (c =? p) && startswith s' prefix'
  | _ :: _, [] => false
  end.

(** [s.split(sep)] for a separator [sep] of one character: the pieces
    between the occurrences of [sep], empty pieces included. *)
Fixpoint split (s : pystr) (sep : N) : list pystr :=
  match s with
  | [] => [[]]
  | c :: s' =>
      if c =? sep then [] :: split s' sep
      else match split s' sep with
           | [] => [[c]]
           | w :: ws => (c :: w) :: ws
           end
  end.

(** [s.lower()] on ASCII text: the letters A-Z are mapped to a-z.  Other
    code points are kept; the Unicode case mapping Python applies to
    cased letters outside ASCII is not part of this model, and the
    statements about [main] that depend on it are about ASCII lines. *)
Definition lower_cp (c : N) : N :=
  if (65 <=? c) && (c <=? 90) then c + 32 else c.

Definition lower (s : pystr) : pystr := map lower_cp s.

Definition is_ascii (s : pystr) : Prop := Forall (fun c => c < 128) s.

(** The ten ASCII digits. *)
Definition is_ascii_digit (c : N) : bool := (48 <=? c) && (c <=? 57).

(** ** Exceptions *)

Inductive exn : Type :=
| KeyError
| ValueError
| IndexError
| EOFError.

Inductive result (A : Type) : Type :=
| Ok (a : A)
| Raise (e : exn).

Arguments Ok {A} a.
Arguments Raise {A} e.

(** ** Fields *)

Record Field : Type := { value : pystr }.

Definition Name : Type := Field.
Definition Phone : Type := Field.

Definition Field_init (v : pystr) : Field := {| value := v |}.

(** [Name.__init__] *)
Definition Name_init (name : pystr) : result Name :=
  if negb (truthy (strip name)) then Raise ValueError
  else Ok (Field_init name).

(** [Phone.__init__] *)
Definition Phone_init (number : pystr) : result Phone :=
  if negb (isdigit number) || negb (len number =? 10) then Raise ValueError
  else Ok (Field_init number).

(** ** Dictionaries

    A [dict] with string keys, as the list of its items in insertion
    order.  Assigning to a key that is present keeps its position. *)

Module PyDict.
Section Dict.
Context {V : Type}.

Definition t : Type := list (pystr * V).

Definition empty : t := [].

(** [d.get(k, None)] *)
Fixpoint get (k : pystr) (d : t) : option V :=
  match d with
  | [] => None
  | (k', v) :: d' => if pystr_eqb k k' then Some v else get k d'
  end.

(** [k in d] *)
Definition contains (k : pystr) (d : t) : bool :=
  match get k d with Some _ => true | None => false end.

(** [d[k] = v] *)
Fixpoint setitem (k : pystr) (v : V) (d : t) : t :=
  match d with
  | [] => [(k, v)]
  | (k', v') :: d' =>
      if pystr_eqb k k' then (k, v) :: d' else (k', v') :: setitem k v d'
  end.

Fixpoint remove (k : pystr) (d : t) : t :=
  match d with
  | [] => []
  | (k', v') :: d' =>
      if pystr_eqb k k' then d' else (k', v') :: remove k d'
  end.

(** [del d[k]]: raises [KeyError] when [k] is not a key. *)
Definition delitem (k : pystr) (d : t) : result t :=
  if contains k d then Ok (remove k d) else Raise KeyError.

(** [d.values()] *)
Definition values (d : t) : list V := map snd d.

Definition keys (d : t) : list pystr := map fst d.

(** [len(d)] *)
Definition size (d : t) : N := N.of_nat (List.length d).

(** Keys are unique: the invariant of every Python dictionary. *)
Definition wf (d : t) : Prop := NoDup (keys d).

(** Number of items stored under [k]. *)
Definition count (k : pystr) (d : t) : nat :=
  List.length (filter (fun kv => pystr_eqb k (fst kv)) d).
End Dict.
Arguments t V : clear implicits.
End PyDict.

(** ** The state-and-exception monad *)

Definition M (S A : Type) : Type := S -> result A * S.

Definition ret {S A} (a : A) : M S A := fun s => (Ok a, s).

Definition raise {S A} (e : exn) : M S A := fun s => (Raise e, s).

Definition bind {S A B} (m : M S A) (k : A -> M S B) : M S B :=
  fun s =>
    match m s with
    | (Ok a, s') => k a s'
    | (Raise e, s') => (Raise e, s')
    end.

(** A call that cannot touch the state. *)
Definition lift {S A} (r : result A) : M S A := fun s => (r, s).

Definition get {S} : M S S := fun s => (Ok s, s).

Definition put {S} (s : S) : M S unit := fun _ => (Ok tt, s).

Declare Scope monad_scope.
Delimit Scope monad_scope with monad.
Notation "x <- m ;; k" := (bind m (fun x => k))
  (at level 61, m at next level, right associativity) : monad_scope.
Notation "m ;; k" := (bind m (fun _ => k))
  (at level 61, right associativity) : monad_scope.
Local Open Scope monad_scope.

(** [xs[i]]: raises [IndexError] out of range. *)
Definition getitem {A} (xs : list A) (i : nat) : result A :=
  match nth_error xs i with
  | Some x => Ok x
  | None => Raise IndexError
  end.

(** The decorator [input_error]: [inner] runs [func] and turns the three
    exceptions it names into their messages; any other one goes on. *)
Definition input_error {S} (func : M S pystr) : M S pystr :=
  fun s =>
    match func s with
    | (Ok r, s') => (Ok r, s')
    | (Raise KeyError, s') => (Ok (py "Contact not found."), s')
    | (Raise ValueError, s') => (Ok (py "Invalid input format."), s')
    | (Raise IndexError, s') => (Ok (py "Not enough arguments."), s')
    | (Raise e, s') => (Raise e, s')
    end.

(** ** Records *)

Record ContactRecord : Type := {
  name : Name;
  phones : list Phone
}.

(** [Record.__init__] *)
Definition Record_init (nm : pystr) : result ContactRecord :=
  match Name_init nm with
  | Ok n => Ok {| name := n; phones := [] |}
  | Raise e => Raise e
  end.

(** [Record.add_phone]: the record after the call. *)
Definition add_phone (self : ContactRecord) (phone_number : pystr)
  : result ContactRecord :=
  match Phone_init phone_number with
  | Ok p => Ok {| name := name self; phones := phones self ++ [p] |}
  | Raise e => Raise e
  end.

(** [Record.find_phone] *)
Definition find_phone (self : ContactRecord) (phone_number : pystr)
  : option Phone :=
  find (fun phone => pystr_eqb (value phone) phone_number) (phones self).

(** [Record.__str__] *)
Definition Record_str (self : ContactRecord) : pystr :=
  py "Contact name: " ++ value (name self) ++ py ", phones: "
    ++ join (py "; ") (map value (phones self)).

(** ** The address book *)

Record AddressBook : Type := { records : PyDict.t ContactRecord }.

(** [AddressBook.__init__] *)
Definition AddressBook_init : AddressBook := {| records := PyDict.empty |}.

(** [AddressBook.add_record] *)
Definition add_record (record : ContactRecord) : M AddressBook unit :=
  self <- get ;;
  put {| records := PyDict.setitem (value (name record)) record (records self) |}.

(** [AddressBook.find] *)
Definition find_record (nm : pystr) : M AddressBook (option ContactRecord) :=
  self <- get ;;
  ret (PyDict.get nm (records self)).

(** [AddressBook.delete] *)
Definition delete (nm : pystr) : M AddressBook unit :=
  self <- get ;;
  if PyDict.contains nm (records self) then
    d <- lift (PyDict.delitem nm (records self)) ;;
    put {| records := d |}
  else ret tt.

(** [AddressBook.__str__] *)
Definition AddressBook_str (self : AddressBook) : pystr :=
  join (py (String "010" EmptyString))
       (map Record_str (PyDict.values (records self))).

(** ** Command handlers *)

(** [name, phone = args]: a list of any other length than two raises
    [ValueError] (not enough, or too many, values to unpack). *)
Definition unpack2 {A} (args : list A) : result (A * A) :=
  match args with
  | [a; b] => Ok (a, b)
  | _ => Raise ValueError
  end.

Definition add_contact_func (args : list pystr) : M AddressBook pystr :=
  np <- lift (unpack2 args) ;;
  let '(nm, phone) := np in
  record <- lift (Record_init nm) ;;
  record <- lift (add_phone record phone) ;;
  add_record record ;;
  ret (py "Contact " ++ nm ++ py " added.").

(** [add_contact], decorated. *)
Definition add_contact (args : list pystr) : M AddressBook pystr :=
  input_error (add_contact_func args).

Definition get_phone_func (args : list pystr) : M AddressBook pystr :=
  nm <- lift (getitem args 0) ;;
  record <- find_record nm ;;
  match record with
  | Some r => ret (Record_str r)
  | None => ret (py "Contact not found.")
  end.

(** [get_phone], decorated. *)
Definition get_phone (args : list pystr) : M AddressBook pystr :=
  input_error (get_phone_func args).

(** ** The command loop

    [main] owns the address book and writes to standard output; [stdout]
    is the list of the strings given to [print], oldest first.  (The
    prompt of [input] is not recorded.) *)

Record World : Type := {
  address_book : AddressBook;
  stdout : list pystr
}.

Definition print (s : pystr) : M World unit :=
  fun w => (Ok tt, {| address_book := address_book w; stdout := stdout w ++ [s] |}).

(** A handler called on [main]'s address book. *)
Definition call {A} (h : M AddressBook A) : M World A :=
  fun w =>
    let '(r, book) := h (address_book w) in
    (r, {| address_book := book; stdout := stdout w |}).

Inductive flow : Type := Continue | Break.

Definition space : N := 32.

(** One turn of the [while True] loop, for the line [raw] read by
    [input]. *)
Definition main_iteration (raw : pystr) : M World flow :=
  let com := lower raw in
  if pystr_eqb com (py "hello") then
    print (py "How can I help you?") ;; ret Continue
  else if startswith com (py "add") then
    let parts := split com space in
    if N.of_nat (List.length parts) <? 3 then
      print (py "Invalid format. Use: add [name] [number]") ;; ret Continue
    else
      nm <- lift (getitem parts 1) ;;
      number <- lift (getitem parts 2) ;;
      msg <- call (add_contact [nm; number]) ;;
      print msg ;; ret Continue
  else if startswith com (py "phone") then
    let parts := split com space in
    if N.of_nat (List.length parts) <? 2 then
      print (py "Invalid format. Use: phone [name]") ;; ret Continue
    else
      nm <- lift (getitem parts 1) ;;
      msg <- call (get_phone [nm]) ;;
      print msg ;; ret Continue
  else if pystr_eqb com (py "all") then
    book <- call get ;;
    match records book with
    | _ :: _ =>
        print (py "Saved contacts:") ;;
        print (AddressBook_str book) ;; ret Continue
    | [] => print (py "No contacts saved yet.") ;; ret Continue
    end
  else if pystr_eqb com (py "exit") then
    print (py "Good bye!") ;; ret Break
  else
    print (py "Invalid command. Try again.e") ;; ret Continue.

(** The loop over the lines standard input holds; [input] raises
    [EOFError] when they are used up. *)
Fixpoint main_loop (lines : list pystr) : M World unit :=
  match lines with
  | [] => raise EOFError
  | raw :: rest =>
      fl <- main_iteration raw ;;
      match fl with
      | Break => ret tt
      | Continue => main_loop rest
      end
  end.

Definition main (lines : list pystr) : result unit * World :=
  main_loop lines {| address_book := AddressBook_init; stdout := [] |}.

(** The lines [main_iteration] prints for [raw], from the book [book]. *)
Definition printed (raw : pystr) (book : AddressBook) : list pystr :=
  stdout (snd (main_iteration raw {| address_book := book; stdout := [] |})).

(** [sub in s]: [sub] occurs in [s] as a run of consecutive characters. *)
Definition occurs_in (sub s : pystr) : Prop :=
  exists pre post, s = pre ++ sub ++ post.

(** ** Values the statements below refer to *)

(** The message of a successful [add_contact]. *)
Definition added (nm : pystr) : pystr := py "Contact " ++ nm ++ py " added.".

(** The record [add_contact] builds for a name and a phone. *)
Definition contact (nm phone : pystr) : ContactRecord :=
  {| name := {| value := nm |}; phones := [{| value := phone |}] |}.

(** Ten ARABIC-INDIC DIGITs, U+0660 to U+0669. *)
Definition arabic_indic_digits : pystr :=
  [1632; 1633; 1634; 1635; 1636; 1637; 1638; 1639; 1640; 1641].

(** ** Invariants *)

(** What [Name] accepts: a string that is not blank. *)
Definition valid_name (s : pystr) : Prop := strip s <> [].

(** What [Phone] accepts: ten characters, each a digit. *)
Definition valid_phone (s : pystr) : Prop :=
  List.length s = 10%nat /\ Forall (fun c => isdigit_cp c = true) s.

(** A record as its constructor and [add_phone] leave it. *)
Definition record_valid (r : ContactRecord) : Prop :=
  valid_name (value (name r))
  /\ Forall (fun ph => valid_phone (value ph)) (phones r).

(** An item as [add_contact] stores it: under the record's name, with
    one phone. *)
Definition cli_item (kv : pystr * ContactRecord) : Prop :=
  exists p,
    snd kv = contact (fst kv) p /\ valid_name (fst kv) /\ valid_phone p.

(** A book as the command loop can make it. *)
Definition cli_book (book : AddressBook) : Prop :=
  PyDict.wf (records book) /\ Forall cli_item (records book).

(** A token: a string without the separator of [split]. *)
Definition no_space (s : pystr) : Prop := ~ In space s.

(** No letter A-Z. *)
Definition no_upper (s : pystr) : Prop :=
  Forall (fun c => c < 65 \/ 90 < c) s.

(** The line break between the records in the string form of a book. *)
Definition newline : pystr := py (String "010" EmptyString).

(** [a] is the beginning of [b]. *)
Definition prefix_of {A} (a b : list A) : Prop := exists rest, b = a ++ rest.

(** ** One turn of the loop, case by case

    [turn com book fl book' out]: on the lower-cased line [com] and the
    book [book], a turn of the loop prints [out], leaves the book
    [book'] and goes on or stops as [fl] says.  [main_iteration_turn]
    below shows that [main_iteration] always takes one of these cases. *)
Inductive turn (com : pystr) (book : AddressBook)
  : flow -> AddressBook -> list pystr -> Prop :=
| turn_hello :
    com = py "hello" ->
    turn com book Continue book [py "How can I help you?"]
| turn_add_usage :
    startswith com (py "add") = true ->
    (List.length (split com space) < 3)%nat ->
    turn com book Continue book [py "Invalid format. Use: add [name] [number]"]
| turn_add cmd nm number rest msg book' :
    startswith com (py "add") = true ->
    split com space = cmd :: nm :: number :: rest ->
    add_contact [nm; number] book = (Ok msg, book') ->
    turn com book Continue book' [msg]
| turn_phone_usage :
    startswith com (py "add") = false ->
    startswith com (py "phone") = true ->
    (List.length (split com space) < 2)%nat ->
    turn com book Continue book [py "Invalid format. Use: phone [name]"]
| turn_phone cmd nm rest msg :
    startswith com (py "add") = false ->
    startswith com (py "phone") = true ->
    split com space = cmd :: nm :: rest ->
    get_phone [nm] book = (Ok msg, book) ->
    turn com book Continue book [msg]
| turn_all_empty :
    com = py "all" ->
    records book = [] ->
    turn com book Continue book [py "No contacts saved yet."]
| turn_all :
    com = py "all" ->
    records book <> [] ->
    turn com book Continue book [py "Saved contacts:"; AddressBook_str book]
| turn_exit :
    com = py "exit" ->
    turn com book Break book [py "Good bye!"]
| turn_invalid :
    com <> py "hello" ->
    startswith com (py "add") = false ->
    startswith com (py "phone") = false ->
    com <> py "all" ->
    com <> py "exit" ->
    turn com book Continue book [py "Invalid command. Try again.e"].

(** * Properties *)

(** ** Strings *)

Lemma pystr_eqb_eq (a b : pystr) : pystr_eqb a b = true <-> a = b.
Proof.
  revert b; induction a as [|x a IH]; intros [|y b]; simpl;
    try (split; [discriminate | congruence]); try tauto.
  rewrite andb_true_iff, N.eqb_eq, IH.
  split; [intros [-> ->]; reflexivity | intros E; injection E; auto].
Qed.

Lemma pystr_eqb_refl (a : pystr) : pystr_eqb a a = true.
Proof. apply pystr_eqb_eq; reflexivity. Qed.

Lemma pystr_eqb_neq (a b : pystr) : a <> b -> pystr_eqb a b = false.
Proof.
  intros H; destruct (pystr_eqb a b) eqn:E; [|reflexivity].
  apply pystr_eqb_eq in E; contradiction.
Qed.

Lemma lstrip_nil_iff (s : pystr) :
  lstrip s = [] <-> Forall (fun c => isspace_cp c = true) s.
Proof.
  induction s as [|c s IH]; simpl.
  - split; auto.
  - destruct (isspace_cp c) eqn:E.
    + rewrite IH; split; [intros H; constructor; assumption
                         | intros H; inversion H; assumption].
    + split; [discriminate | intros H; inversion H; congruence].
Qed.

Lemma lstrip_all_space (s : pystr) :
  Forall (fun c => isspace_cp c = true) s -> lstrip s = [].
Proof. apply lstrip_nil_iff. Qed.

(** What [lstrip] keeps is a suffix, and what it drops is whitespace. *)
Lemma lstrip_suffix (s : pystr) :
  exists pre, s = pre ++ lstrip s /\ Forall (fun c => isspace_cp c = true) pre.
Proof.
  induction s as [|c s [pre [E F]]]; simpl.
  - exists []; split; auto.
  - destruct (isspace_cp c) eqn:Ec.
    + exists (c :: pre); split; [simpl; congruence | constructor; assumption].
    + exists []; split; auto.
Qed.

(** A string is stripped to nothing exactly when it is all whitespace. *)
Lemma strip_nil_iff (s : pystr) :
  strip s = [] <-> Forall (fun c => isspace_cp c = true) s.
Proof.
  unfold strip, rstrip; split.
  - intros H.
    assert (L : lstrip (rev (lstrip s)) = []).
    { rewrite <- (rev_involutive (lstrip (rev (lstrip s)))), H; reflexivity. }
    apply lstrip_nil_iff in L.
    destruct (lstrip_suffix s) as [pre [E F]].
    rewrite E; apply Forall_app; split; [assumption|].
    apply Forall_rev in L; rewrite rev_involutive in L; exact L.
  - intros H; rewrite (lstrip_all_space s H); reflexivity.
Qed.

Lemma truthy_false_iff (s : pystr) : truthy s = false <-> s = [].
Proof. destruct s; simpl; split; congruence. Qed.

(** Below 128 the digits of [str.isdigit] are the ten ASCII digits. *)
Lemma isdigit_cp_ascii (c : N) : c < 128 -> isdigit_cp c = is_ascii_digit c.
Proof.
  intros H; unfold isdigit_cp, is_ascii_digit, digit_table.
  cbn [in_ranges existsb fst snd].
  destruct ((48 <=? c) && (c <=? 57)); [reflexivity|].
  cbn [orb].
  repeat match goal with
         | |- context [(?lo <=? c) && _] =>
             replace (lo <=? c) with false by (symmetry; apply N.leb_gt; lia);
             cbn [andb orb]
         end.
  reflexivity.
Qed.

Lemma len_eqb_10 (s : pystr) : (len s =? 10) = true <-> List.length s = 10%nat.
Proof. unfold len; rewrite N.eqb_eq; lia. Qed.

Lemma isdigit_forallb (s : pystr) :
  List.length s = 10%nat -> isdigit s = forallb isdigit_cp s.
Proof. destruct s; [discriminate | reflexivity]. Qed.

(** ** Field validation *)

(** [Phone.__init__] accepts exactly the strings of ten [str.isdigit]
    characters. *)
Lemma Phone_init_ok_iff (s : pystr) :
  Phone_init s = Ok (Field_init s)
  <-> List.length s = 10%nat /\ Forall (fun c => isdigit_cp c = true) s.
Proof.
  unfold Phone_init.
  destruct (len s =? 10) eqn:L.
  - apply len_eqb_10 in L; rewrite (isdigit_forallb s L).
    destruct (forallb isdigit_cp s) eqn:D; simpl.
    + rewrite forallb_forall in D; rewrite Forall_forall; tauto.
    + split; [discriminate|]; intros [_ F].
      rewrite Forall_forall, <- forallb_forall in F; congruence.
  - rewrite orb_true_r; split; [discriminate|]; intros [E _].
    apply len_eqb_10 in E; congruence.
Qed.

Lemma Phone_init_cases (s : pystr) :
  Phone_init s = Ok (Field_init s) \/ Phone_init s = Raise ValueError.
Proof. unfold Phone_init; destruct (_ || _); auto. Qed.

Lemma Name_init_cases (s : pystr) :
  Name_init s = Ok (Field_init s) \/ Name_init s = Raise ValueError.
Proof. unfold Name_init; destruct (negb _); auto. Qed.

Lemma Name_init_raise_iff (s : pystr) :
  Name_init s = Raise ValueError <-> strip s = [].
Proof.
  unfold Name_init; destruct (strip s); simpl; split; congruence.
Qed.

Lemma Name_init_ok_iff (s : pystr) :
  Name_init s = Ok (Field_init s) <-> strip s <> [].
Proof.
  unfold Name_init; destruct (strip s); simpl; split; congruence.
Qed.

(** C2, as stated, fails: [Phone] accepts a string of ten characters
    none of which is an ASCII character, let alone an ASCII digit. *)
Lemma Phone_init_not_ascii_only :
  Phone_init arabic_indic_digits = Ok {| value := arabic_indic_digits |}
  /\ List.length arabic_indic_digits = 10%nat
  /\ forallb (fun c => negb (c <? 128)) arabic_indic_digits = true
  /\ forallb is_ascii_digit arabic_indic_digits = false.
Proof. vm_compute. repeat split; reflexivity. Qed.

(** C2, amended: [Phone] construction succeeds if and only if the string
    has length exactly 10 and every character is a digit in the sense of
    [str.isdigit] (which holds of the ASCII digits and of the digits of
    other scripts), and raises [ValueError] otherwise; for a string of
    ASCII characters that is: exactly ten ASCII digits.  [Phone("12345")]
    and [Phone("12345abcde")] raise [ValueError], [Phone("0123456789")]
    succeeds, and every string with a character that is not such a digit
    is rejected. *)
Theorem Phone_init_spec :
  (forall s,
      Phone_init s = Ok {| value := s |}
      <-> List.length s = 10%nat /\ Forall (fun c => isdigit_cp c = true) s)
  /\ (forall s,
      Phone_init s = Raise ValueError
      <-> ~ (List.length s = 10%nat /\ Forall (fun c => isdigit_cp c = true) s))
  /\ (forall s,
      is_ascii s ->
      (Phone_init s = Ok {| value := s |}
       <-> List.length s = 10%nat
           /\ Forall (fun c => is_ascii_digit c = true) s))
  /\ (forall s c,
      In c s -> isdigit_cp c = false -> Phone_init s = Raise ValueError)
  /\ Phone_init (py "12345") = Raise ValueError
  /\ Phone_init (py "12345abcde") = Raise ValueError
  /\ Phone_init (py "0123456789") = Ok {| value := py "0123456789" |}.
Proof.
  assert (R : forall s,
             Phone_init s = Raise ValueError
             <-> ~ (List.length s = 10%nat
                    /\ Forall (fun c => isdigit_cp c = true) s)).
  { intros s; rewrite <- Phone_init_ok_iff.
    destruct (Phone_init_cases s) as [E|E]; rewrite E;
      split; congruence. }
  split; [exact Phone_init_ok_iff|].
  split; [exact R|].
  split.
  { intros s A; rewrite (Phone_init_ok_iff s).
    assert (F : Forall (fun c => isdigit_cp c = true) s
                <-> Forall (fun c => is_ascii_digit c = true) s).
    { unfold is_ascii in A; rewrite !Forall_forall in *.
      split; intros H c Hc; specialize (H c Hc);
        rewrite (isdigit_cp_ascii c (A c Hc)) in *; assumption. }
    rewrite F; reflexivity. }
  split.
  { intros s c Hin Hc; apply R; intros [_ F].
    rewrite Forall_forall in F; rewrite (F c Hin) in Hc; discriminate. }
  repeat split.
Qed.

Lemma Phone_init_spec_witness :
  is_ascii (py "0123456789")
  /\ (Phone_init (py "0123456789") = Ok {| value := py "0123456789" |}
      <-> List.length (py "0123456789") = 10%nat
          /\ Forall (fun c => is_ascii_digit c = true) (py "0123456789")).
Proof.
  assert (A : is_ascii (py "0123456789")).
  { unfold is_ascii; simpl; repeat constructor. }
  split; [exact A|].
  exact (proj1 (proj2 (proj2 Phone_init_spec)) (py "0123456789") A).
Defined.

(** C3: [Name] construction raises [ValueError] exactly when the string,
    stripped of whitespace, is empty, and otherwise succeeds; [Name("")]
    and [Name("   ")] raise, and [Name("Ann")] succeeds with value
    ["Ann"]. *)
Theorem Name_init_spec :
  (forall s, Name_init s = Raise ValueError <-> strip s = [])
  /\ (forall s, (exists n, Name_init s = Ok n) <-> strip s <> [])
  /\ Name_init (py "") = Raise ValueError
  /\ Name_init (py "   ") = Raise ValueError
  /\ Name_init (py "Ann") = Ok {| value := py "Ann" |}.
Proof.
  split; [exact Name_init_raise_iff|].
  split.
  { intros s; rewrite <- Name_init_ok_iff; split.
    - intros [n H]; destruct (Name_init_cases s) as [E|E]; congruence.
    - intros H; eexists; exact H. }
  repeat split.
Qed.

(** ** Dictionaries *)

Section DictFacts.
Context {V : Type}.
Implicit Types (d : PyDict.t V) (k : pystr) (v : V).

Lemma get_None_iff k d : PyDict.get k d = None <-> ~ In k (PyDict.keys d).
Proof.
  induction d as [|[k' v'] d IH]; simpl; [tauto|].
  destruct (pystr_eqb k k') eqn:E.
  - apply pystr_eqb_eq in E; subst; split; [discriminate | tauto].
  - rewrite IH; split; [|tauto].
    intros H [->|H']; [rewrite pystr_eqb_refl in E; discriminate | tauto].
Qed.

Lemma get_setitem_same k v d : PyDict.get k (PyDict.setitem k v d) = Some v.
Proof.
  induction d as [|[k' v'] d IH]; simpl.
  - rewrite pystr_eqb_refl; reflexivity.
  - destruct (pystr_eqb k k') eqn:E; simpl.
    + rewrite pystr_eqb_refl; reflexivity.
    + rewrite E; exact IH.
Qed.

Lemma get_setitem_other k k' v d :
  k' <> k -> PyDict.get k' (PyDict.setitem k v d) = PyDict.get k' d.
Proof.
  intros N; induction d as [|[k0 v0] d IH]; simpl.
  - rewrite (pystr_eqb_neq _ _ N); reflexivity.
  - destruct (pystr_eqb k k0) eqn:E; simpl.
    + apply pystr_eqb_eq in E; subst k0.
      rewrite (pystr_eqb_neq _ _ N); reflexivity.
    + rewrite IH; reflexivity.
Qed.

Lemma keys_setitem k v d k' :
  In k' (PyDict.keys (PyDict.setitem k v d)) <-> k' = k \/ In k' (PyDict.keys d).
Proof.
  induction d as [|[k0 v0] d IH]; simpl.
  - intuition congruence.
  - destruct (pystr_eqb k k0) eqn:E; simpl.
    + apply pystr_eqb_eq in E; subst k0; intuition congruence.
    + rewrite IH; intuition congruence.
Qed.

(** Assignment keeps the keys unique. *)
Lemma wf_setitem k v d : PyDict.wf d -> PyDict.wf (PyDict.setitem k v d).
Proof.
  unfold PyDict.wf; induction d as [|[k0 v0] d IH]; simpl; intros W.
  - repeat constructor; simpl; tauto.
  - inversion W as [|? ? Hn Hd]; subst.
    destruct (pystr_eqb k k0) eqn:E; simpl.
    + apply pystr_eqb_eq in E; subst k0; constructor; assumption.
    + constructor; [|apply IH; assumption].
      intros Hin; apply (keys_setitem k v d k0) in Hin.
      destruct Hin as [->|Hin]; [|contradiction].
      rewrite pystr_eqb_refl in E; discriminate.
Qed.

Lemma size_setitem_present k v d :
  PyDict.contains k d = true ->
  PyDict.size (PyDict.setitem k v d) = PyDict.size d.
Proof.
  unfold PyDict.contains, PyDict.size; intros C; f_equal.
  induction d as [|[k0 v0] d IH]; simpl in *; [discriminate|].
  destruct (pystr_eqb k k0); simpl; [reflexivity|].
  rewrite IH; [reflexivity | exact C].
Qed.

Lemma size_setitem_absent k v d :
  PyDict.contains k d = false ->
  PyDict.size (PyDict.setitem k v d) = PyDict.size d + 1.
Proof.
  unfold PyDict.contains, PyDict.size; intros C.
  assert (L : List.length (PyDict.setitem k v d) = S (List.length d)).
  { induction d as [|[k0 v0] d IH]; simpl in *; [reflexivity|].
    destruct (pystr_eqb k k0); simpl; [discriminate|].
    rewrite IH; [reflexivity | exact C]. }
  rewrite L; lia.
Qed.

Lemma count_absent k d : ~ In k (PyDict.keys d) -> PyDict.count k d = 0%nat.
Proof.
  unfold PyDict.count; induction d as [|[k0 v0] d IH]; simpl; intros H;
    [reflexivity|].
  rewrite (pystr_eqb_neq k k0) by (intros ->; tauto).
  apply IH; tauto.
Qed.

(** In a dictionary a key that is present has one item. *)
Lemma count_present k d :
  PyDict.wf d -> PyDict.contains k d = true -> PyDict.count k d = 1%nat.
Proof.
  unfold PyDict.wf, PyDict.contains.
  induction d as [|[k0 v0] d IH]; simpl; intros W C; [discriminate|].
  inversion W as [|? ? Hn Hd]; subst.
  unfold PyDict.count in *; simpl.
  destruct (pystr_eqb k k0) eqn:E; simpl.
  - apply pystr_eqb_eq in E; subst k0.
    f_equal; apply (count_absent k d Hn).
  - apply IH; assumption.
Qed.

Lemma contains_setitem k v d : PyDict.contains k (PyDict.setitem k v d) = true.
Proof. unfold PyDict.contains; rewrite get_setitem_same; reflexivity. Qed.

Lemma remove_absent k d : PyDict.get k d = None -> PyDict.remove k d = d.
Proof.
  induction d as [|[k0 v0] d IH]; simpl; [reflexivity|].
  destruct (pystr_eqb k k0); [discriminate|].
  intros H; rewrite IH; [reflexivity | exact H].
Qed.

(** [remove] takes out the first item under the key, and only it. *)
Lemma remove_present k v d :
  PyDict.get k d = Some v ->
  exists pre post,
    d = pre ++ (k, v) :: post
    /\ PyDict.remove k d = pre ++ post
    /\ ~ In k (PyDict.keys pre).
Proof.
  induction d as [|[k0 v0] d IH]; simpl; [discriminate|].
  destruct (pystr_eqb k k0) eqn:E.
  - apply pystr_eqb_eq in E; subst k0.
    intros H; injection H as ->.
    exists [], d; simpl; tauto.
  - intros H; destruct (IH H) as [pre [post [E1 [E2 E3]]]].
    exists ((k0, v0) :: pre), post; simpl.
    rewrite <- E1, E2; repeat split.
    intros [->|Hin]; [rewrite pystr_eqb_refl in E; discriminate | tauto].
Qed.

Lemma get_remove_other k k' d :
  k' <> k -> PyDict.get k' (PyDict.remove k d) = PyDict.get k' d.
Proof.
  intros N; induction d as [|[k0 v0] d IH]; simpl; [reflexivity|].
  destruct (pystr_eqb k k0) eqn:E; simpl.
  - apply pystr_eqb_eq in E; subst k0.
    rewrite (pystr_eqb_neq _ _ N); reflexivity.
  - rewrite IH; reflexivity.
Qed.

Lemma get_remove_same k d :
  PyDict.wf d -> PyDict.get k (PyDict.remove k d) = None.
Proof.
  unfold PyDict.wf; induction d as [|[k0 v0] d IH]; simpl; intros W;
    [reflexivity|].
  inversion W as [|? ? Hn Hd]; subst.
  destruct (pystr_eqb k k0) eqn:E; simpl.
  - apply pystr_eqb_eq in E; subst k0; apply get_None_iff; exact Hn.
  - rewrite E; apply IH; assumption.
Qed.

Lemma wf_remove k d : PyDict.wf d -> PyDict.wf (PyDict.remove k d).
Proof.
  unfold PyDict.wf; induction d as [|[k0 v0] d IH]; simpl; intros W;
    [constructor|].
  inversion W as [|? ? Hn Hd]; subst.
  destruct (pystr_eqb k k0) eqn:E; simpl; [assumption|].
  constructor; [|apply IH; assumption].
  intros Hin; apply Hn.
  destruct (PyDict.get k0 d) eqn:G; [|apply get_None_iff in G].
  - destruct (get_None_iff k0 d) as [_ H].
    destruct (in_dec (list_eq_dec N.eq_dec) k0 (PyDict.keys d)); [assumption|].
    rewrite (H n) in G; discriminate.
  - exfalso. apply (proj1 (get_None_iff k0 (PyDict.remove k d))); [|exact Hin].
    rewrite get_remove_other; [apply get_None_iff; exact G|].
    intros ->; rewrite pystr_eqb_refl in E; discriminate.
Qed.

Lemma size_remove_present k d :
  PyDict.contains k d = true ->
  PyDict.size (PyDict.remove k d) + 1 = PyDict.size d.
Proof.
  unfold PyDict.contains, PyDict.size; intros C.
  assert (L : S (List.length (PyDict.remove k d)) = List.length d).
  { induction d as [|[k0 v0] d IH]; simpl in *; [discriminate|].
    destruct (pystr_eqb k k0); simpl; [reflexivity|].
    rewrite IH; [reflexivity | exact C]. }
  rewrite <- L; lia.
Qed.
End DictFacts.

(** ** Handlers *)

Ltac run_handler :=
  unfold add_contact, get_phone, input_error, add_contact_func,
    get_phone_func, add_record, find_record, delete, bind, lift, ret, get,
    put, raise, Record_init, add_phone; simpl.

Lemma add_contact_ok (nm phone : pystr) (book : AddressBook) :
  Name_init nm = Ok (Field_init nm) ->
  Phone_init phone = Ok (Field_init phone) ->
  add_contact [nm; phone] book
  = (Ok (added nm),
     {| records := PyDict.setitem nm (contact nm phone) (records book) |}).
Proof. intros Hn Hp; run_handler; rewrite Hn, Hp; reflexivity. Qed.

Lemma add_contact_invalid (nm phone : pystr) (book : AddressBook) :
  Name_init nm = Raise ValueError \/ Phone_init phone = Raise ValueError ->
  add_contact [nm; phone] book = (Ok (py "Invalid input format."), book).
Proof.
  intros [Hn|Hp]; run_handler.
  - rewrite Hn; reflexivity.
  - rewrite Hp; destruct (Name_init_cases nm) as [E|E]; rewrite E;
      reflexivity.
Qed.

Lemma add_record_run (r : ContactRecord) (book : AddressBook) :
  add_record r book
  = (Ok tt, {| records := PyDict.setitem (value (name r)) r (records book) |}).
Proof. reflexivity. Qed.

(** C1: the code does otherwise.  With fewer than two arguments the
    unpacking [name, phone = args] raises [ValueError], which the
    decorator turns into "Invalid input format."; the message
    "Not enough arguments." is never produced by [add_contact], while
    [get_phone], which indexes [args], does produce it when the name is
    missing. *)
Theorem add_contact_too_few_arguments (book : AddressBook) :
  add_contact [] book = (Ok (py "Invalid input format."), book)
  /\ (forall a, add_contact [a] book = (Ok (py "Invalid input format."), book))
  /\ (forall args,
        fst (add_contact args book) <> Ok (py "Not enough arguments."))
  /\ get_phone [] book = (Ok (py "Not enough arguments."), book).
Proof.
  split; [reflexivity|]; split; [reflexivity|]; split; [|reflexivity].
  intros [|a [|b [|c args]]]; try (cbv; discriminate).
  destruct (Name_init_cases a) as [Hn|Hn];
    destruct (Phone_init_cases b) as [Hp|Hp];
    try (rewrite add_contact_invalid by tauto; cbv; discriminate).
  rewrite (add_contact_ok a b book Hn Hp); unfold added; simpl.
  intros H; injection H; discriminate.
Qed.

(** C4: adding two contacts with the same name leaves one entry under
    that name, the second: after two [add_record] calls with equally
    named records, and after two successful [add_contact] calls, the
    name has exactly one item, lookup returns the second record (with
    the second phone only), the second call does not change the size,
    and the size is 1 when the book was empty. *)
Theorem same_name_overwrites (book : AddressBook) :
  PyDict.wf (records book) ->
  (forall r1 r2,
      value (name r1) = value (name r2) ->
      let b1 := snd (add_record r1 book) in
      let b2 := snd (add_record r2 b1) in
      PyDict.count (value (name r2)) (records b2) = 1%nat
      /\ find_record (value (name r2)) b2 = (Ok (Some r2), b2)
      /\ PyDict.size (records b2) = PyDict.size (records b1)
      /\ (records book = [] -> PyDict.size (records b2) = 1))
  /\ (forall nm p1 p2,
      Name_init nm = Ok {| value := nm |} ->
      Phone_init p1 = Ok {| value := p1 |} ->
      Phone_init p2 = Ok {| value := p2 |} ->
      let b1 := snd (add_contact [nm; p1] book) in
      let b2 := snd (add_contact [nm; p2] b1) in
      fst (add_contact [nm; p1] book) = Ok (added nm)
      /\ fst (add_contact [nm; p2] b1) = Ok (added nm)
      /\ PyDict.count nm (records b2) = 1%nat
      /\ find_record nm b2 = (Ok (Some (contact nm p2)), b2)
      /\ phones (contact nm p2) = [{| value := p2 |}]
      /\ PyDict.size (records b2) = PyDict.size (records b1)
      /\ (records book = [] -> PyDict.size (records b2) = 1)).
Proof.
  intros W.
  assert (A : forall r1 r2,
             value (name r1) = value (name r2) ->
             let b1 := snd (add_record r1 book) in
             let b2 := snd (add_record r2 b1) in
             PyDict.count (value (name r2)) (records b2) = 1%nat
             /\ find_record (value (name r2)) b2 = (Ok (Some r2), b2)
             /\ PyDict.size (records b2) = PyDict.size (records b1)
             /\ (records book = [] -> PyDict.size (records b2) = 1)).
  { intros r1 r2 E; cbv zeta.
    rewrite !add_record_run; cbn [snd records]; rewrite E.
    set (k := value (name r2)).
    split; [|split; [|split]].
    - apply count_present; [|apply contains_setitem].
      apply wf_setitem, wf_setitem, W.
    - unfold find_record, bind, get, ret; cbn [records].
      rewrite get_setitem_same; reflexivity.
    - apply size_setitem_present, contains_setitem.
    - intros Em; rewrite Em; simpl; rewrite pystr_eqb_refl; reflexivity. }
  split; [exact A|].
  intros nm p1 p2 Hn H1 H2; cbv zeta.
  specialize (A (contact nm p1) (contact nm p2) eq_refl); cbv zeta in A.
  rewrite !add_record_run in A; cbn [snd records contact name value] in A.
  rewrite (add_contact_ok nm p1 book Hn H1); cbn [fst snd].
  rewrite (add_contact_ok nm p2 _ Hn H2); cbn [fst snd records].
  destruct A as [A1 [A2 [A3 A4]]].
  repeat split; assumption.
Qed.

Lemma same_name_overwrites_witness :
  let b1 := snd (add_contact [py "ann"; py "0123456789"] AddressBook_init) in
  let b2 := snd (add_contact [py "ann"; py "9876543210"] b1) in
  find_record (py "ann") b2
  = (Ok (Some (contact (py "ann") (py "9876543210"))), b2)
  /\ PyDict.size (records b2) = 1.
Proof.
  assert (W : PyDict.wf (records AddressBook_init)) by constructor.
  destruct (proj2 (same_name_overwrites AddressBook_init W)
              (py "ann") (py "0123456789") (py "9876543210")
              eq_refl eq_refl eq_refl)
    as [_ [_ [_ [F [_ [_ Sz]]]]]].
  split; [exact F | exact (Sz eq_refl)].
Defined.

(** C5: [get_phone] on a name that is not in the book returns
    "Contact not found." and leaves the book as it is; and whatever its
    arguments, [get_phone] returns a string and raises nothing. *)
Theorem get_phone_unknown (nm : pystr) (rest : list pystr) (book : AddressBook) :
  find_record nm book = (Ok None, book) ->
  get_phone (nm :: rest) book = (Ok (py "Contact not found."), book)
  /\ (forall args b, exists msg, get_phone args b = (Ok msg, b)).
Proof.
  intros F; split.
  - revert F; run_handler; intros F; injection F as F.
    rewrite F; reflexivity.
  - intros [|a args] b; run_handler; [eexists; reflexivity|].
    destruct (PyDict.get a (records b)); eexists; reflexivity.
Qed.

Lemma get_phone_unknown_witness :
  get_phone [py "bob"] AddressBook_init
  = (Ok (py "Contact not found."), AddressBook_init).
Proof.
  exact (proj1 (get_phone_unknown (py "bob") [] AddressBook_init eq_refl)).
Defined.

(** C6: for a valid name and a valid phone, [add_contact] succeeds, and
    then [find] on that name returns a record whose string form contains
    the phone; [get_phone] returns that string form. *)
Theorem add_then_find (nm phone : pystr) (book : AddressBook) :
  Name_init nm = Ok {| value := nm |} ->
  Phone_init phone = Ok {| value := phone |} ->
  exists book' r,
    add_contact [nm; phone] book = (Ok (added nm), book')
    /\ find_record nm book' = (Ok (Some r), book')
    /\ occurs_in phone (Record_str r)
    /\ get_phone [nm] book' = (Ok (Record_str r), book').
Proof.
  intros Hn Hp.
  exists {| records := PyDict.setitem nm (contact nm phone) (records book) |},
         (contact nm phone).
  split; [apply add_contact_ok; assumption|].
  split; [|split].
  - unfold find_record, bind, get, ret; cbn [records].
    rewrite get_setitem_same; reflexivity.
  - exists (py "Contact name: " ++ nm ++ py ", phones: "), [].
    unfold Record_str, contact; cbn [name phones value map join].
    rewrite app_nil_r, <- !app_assoc; reflexivity.
  - run_handler; rewrite get_setitem_same; reflexivity.
Qed.

Lemma add_then_find_witness :
  exists book' r,
    add_contact [py "john"; py "1234567890"] AddressBook_init
    = (Ok (added (py "john")), book')
    /\ find_record (py "john") book' = (Ok (Some r), book')
    /\ occurs_in (py "1234567890") (Record_str r)
    /\ get_phone [py "john"] book' = (Ok (Record_str r), book').
Proof.
  exact (add_then_find (py "john") (py "1234567890") AddressBook_init
           eq_refl eq_refl).
Defined.

(** C8: [delete] raises nothing; on a name that is not in the book it
    leaves the book unchanged; on a name that is in the book it takes
    out that item and no other (the items before and after it stay, in
    order), after which the name is absent; lookup of every other name
    is unchanged. *)
Theorem delete_spec (nm : pystr) (book : AddressBook) :
  PyDict.wf (records book) ->
  exists book',
    delete nm book = (Ok tt, book')
    /\ PyDict.wf (records book')
    /\ (PyDict.get nm (records book) = None -> book' = book)
    /\ (forall r,
          PyDict.get nm (records book) = Some r ->
          (exists pre post,
              records book = pre ++ (nm, r) :: post
              /\ records book' = pre ++ post)
          /\ PyDict.get nm (records book') = None
          /\ PyDict.size (records book') + 1 = PyDict.size (records book))
    /\ (forall other,
          other <> nm ->
          PyDict.get other (records book') = PyDict.get other (records book)).
Proof.
  intros W; unfold delete, bind, get, lift, put, ret, PyDict.delitem.
  destruct (PyDict.contains nm (records book)) eqn:C.
  - exists {| records := PyDict.remove nm (records book) |}; cbn [records].
    split; [reflexivity|].
    split; [apply wf_remove; exact W|].
    unfold PyDict.contains in C.
    split; [intros G; rewrite G in C; discriminate|].
    split.
    + intros r G.
      destruct (remove_present nm r (records book) G) as [pre [post [E1 [E2 _]]]].
      split; [exists pre, post; tauto|].
      split; [apply get_remove_same; exact W|].
      apply size_remove_present; unfold PyDict.contains; rewrite G; reflexivity.
    + intros other N; apply get_remove_other; exact N.
  - exists book; split; [reflexivity|]; split; [exact W|].
    split; [reflexivity|].
    unfold PyDict.contains in C.
    split; [intros r G; rewrite G in C; discriminate | reflexivity].
Qed.

Lemma delete_spec_witness :
  exists book',
    delete (py "ann") (snd (add_contact [py "ann"; py "0123456789"]
                              AddressBook_init))
    = (Ok tt, book')
    /\ PyDict.get (py "ann") (records book') = None.
Proof.
  assert (W : PyDict.wf
                (records (snd (add_contact [py "ann"; py "0123456789"]
                                 AddressBook_init)))).
  { repeat constructor; simpl; tauto. }
  destruct (delete_spec (py "ann") _ W) as [book' [D [_ [_ [P _]]]]].
  exists book'; split; [exact D|].
  exact (proj1 (proj2 (P (contact (py "ann") (py "0123456789")) eq_refl))).
Defined.

(** C9: when the name or the phone given to [add_contact] fails
    validation, [add_contact] returns "Invalid input format." and the
    book is exactly as before the call. *)
Theorem add_contact_invalid_keeps_book (nm phone : pystr) (book : AddressBook) :
  Name_init nm = Raise ValueError \/ Phone_init phone = Raise ValueError ->
  add_contact [nm; phone] book = (Ok (py "Invalid input format."), book).
Proof. apply add_contact_invalid. Qed.

Lemma add_contact_invalid_keeps_book_witness :
  add_contact [py "alice"; py "123"] AddressBook_init
  = (Ok (py "Invalid input format."), AddressBook_init).
Proof.
  exact (add_contact_invalid_keeps_book (py "alice") (py "123")
           AddressBook_init (or_intror eq_refl)).
Defined.

(** C10: for a string with at least one character that is not
    whitespace, [Name] stores the string as given, untrimmed; a record
    built from it is stored under the untrimmed string, and when that
    differs from the trimmed one, nothing is stored under the trimmed
    one. *)
Theorem Name_keeps_raw (raw : pystr) :
  (exists c, In c raw /\ isspace_cp c = false) ->
  Name_init raw = Ok {| value := raw |}
  /\ Record_init raw = Ok {| name := {| value := raw |}; phones := [] |}
  /\ (forall r book,
        Record_init raw = Ok r ->
        let book' := snd (add_record r book) in
        find_record raw book' = (Ok (Some r), book')
        /\ (strip raw <> raw ->
            fst (find_record (strip raw) book')
            = fst (find_record (strip raw) book))).
Proof.
  intros [c [Hin Hc]].
  assert (Hn : Name_init raw = Ok (Field_init raw)).
  { apply Name_init_ok_iff; intros E; apply strip_nil_iff in E.
    rewrite Forall_forall in E; rewrite (E c Hin) in Hc; discriminate. }
  split; [exact Hn|].
  assert (Hr : Record_init raw
               = Ok {| name := {| value := raw |}; phones := [] |}).
  { unfold Record_init; rewrite Hn; reflexivity. }
  split; [exact Hr|].
  intros r book E; rewrite Hr in E; injection E as <-; cbv zeta.
  rewrite add_record_run; cbn [snd name value].
  unfold find_record, bind, get, ret; cbn [records fst].
  split; [rewrite get_setitem_same; reflexivity|].
  intros N; rewrite get_setitem_other by exact N; reflexivity.
Qed.

Lemma Name_keeps_raw_witness :
  Name_init (py " Ann ") = Ok {| value := py " Ann " |}
  /\ strip (py " Ann ") = py "Ann".
Proof.
  assert (H : exists c, In c (py " Ann ") /\ isspace_cp c = false).
  { exists 65; split; [simpl; tauto | reflexivity]. }
  split; [exact (proj1 (Name_keeps_raw (py " Ann ") H)) | reflexivity].
Defined.

(** C7, as stated, fails: the line [phone] is answered with the usage
    message of the loop, and "Not enough arguments." is not printed. *)
Lemma main_phone_without_name_counterexample :
  printed (py "phone") AddressBook_init
  = [py "Invalid format. Use: phone [name]"]
  /\ ~ In (py "Not enough arguments.") (printed (py "phone") AddressBook_init).
Proof.
  split; [reflexivity|].
  intros [H|[]]; revert H; vm_compute; discriminate.
Qed.

(** C7, amended: in the command loop the input line [phone] with no
    name token prints "Invalid format. Use: phone [name]" for that
    command, leaves the book unchanged and goes on to the next line. *)
Theorem main_phone_without_name (w : World) :
  main_iteration (py "phone") w
  = (Ok Continue,
     {| address_book := address_book w;
        stdout := stdout w ++ [py "Invalid format. Use: phone [name]"] |}).
Proof. reflexivity. Qed.

(** ** Sessions *)

(** The keys of the book stay unique through [add_contact] and
    [delete], whatever they are given. *)
Lemma add_contact_wf (args : list pystr) (book : AddressBook) :
  PyDict.wf (records book) ->
  PyDict.wf (records (snd (add_contact args book))).
Proof.
  intros W; destruct args as [|a [|b [|c args]]]; try exact W.
  destruct (Name_init_cases a) as [Hn|Hn];
    destruct (Phone_init_cases b) as [Hp|Hp];
    try (rewrite add_contact_invalid by tauto; exact W).
  rewrite (add_contact_ok a b book Hn Hp); cbn [snd records].
  apply wf_setitem; exact W.
Qed.

Lemma AddressBook_init_wf : PyDict.wf (records AddressBook_init).
Proof. constructor. Qed.

Example main_session :
  main [py "add john 1234567890"; py "phone john"; py "all"; py "exit"]
  = (Ok tt,
     {| address_book :=
          {| records :=
               [(py "john",
                 {| name := {| value := py "john" |};
                    phones := [{| value := py "1234567890" |}] |})] |};
        stdout :=
          [py "Contact john added.";
           py "Contact name: john, phones: 1234567890";
           py "Saved contacts:";
           py "Contact name: john, phones: 1234567890";
           py "Good bye!"] |}).
Proof. vm_compute. reflexivity. Qed.

Example main_short_phone :
  stdout (snd (main [py "add alice 123"; py "exit"]))
  = [py "Invalid input format."; py "Good bye!"].
Proof. vm_compute. reflexivity. Qed.

(** ** Records *)

Lemma add_phone_ok (r : ContactRecord) (p : pystr) :
  Phone_init p = Ok (Field_init p) ->
  add_phone r p
  = Ok {| name := name r; phones := phones r ++ [{| value := p |}] |}.
Proof. intros H; unfold add_phone; rewrite H; reflexivity. Qed.

Lemma add_phone_raise (r : ContactRecord) (p : pystr) :
  Phone_init p = Raise ValueError -> add_phone r p = Raise ValueError.
Proof. intros H; unfold add_phone; rewrite H; reflexivity. Qed.

Lemma add_phone_inv (r r' : ContactRecord) (p : pystr) :
  add_phone r p = Ok r' ->
  Phone_init p = Ok (Field_init p)
  /\ r' = {| name := name r; phones := phones r ++ [{| value := p |}] |}.
Proof.
  intros H; destruct (Phone_init_cases p) as [E|E].
  - rewrite (add_phone_ok r p E) in H; injection H as <-; split; auto.
  - rewrite (add_phone_raise r p E) in H; discriminate.
Qed.

Lemma find_app_hit {A} (f : A -> bool) (l l' : list A) (x : A) :
  find f l = Some x -> find f (l ++ l') = Some x.
Proof.
  induction l as [|a l IH]; simpl; [discriminate|].
  destruct (f a); [auto | exact IH].
Qed.

Lemma find_app_miss {A} (f : A -> bool) (l l' : list A) :
  find f l = None -> find f (l ++ l') = find f l'.
Proof.
  induction l as [|a l IH]; simpl; [reflexivity|].
  destruct (f a); [discriminate | exact IH].
Qed.

Lemma field_eta (f : Field) : f = {| value := value f |}.
Proof. destruct f; reflexivity. Qed.

Lemma find_phone_some (r : ContactRecord) (q : pystr) (ph : Phone) :
  find_phone r q = Some ph -> ph = {| value := q |} /\ In ph (phones r).
Proof.
  unfold find_phone; intros H; apply find_some in H; destruct H as [Hin E].
  apply pystr_eqb_eq in E; split; [|exact Hin].
  rewrite (field_eta ph), E; reflexivity.
Qed.

(** X1: a phone that [add_phone] has accepted is found by [find_phone];
    the name and the phones that were there stay, the new one goes last,
    and every phone that was found before is still found. *)
Theorem add_phone_then_find_phone (r r' : ContactRecord) (p : pystr) :
  add_phone r p = Ok r' ->
  name r' = name r
  /\ phones r' = phones r ++ [{| value := p |}]
  /\ find_phone r' p = Some {| value := p |}
  /\ (forall q ph, find_phone r q = Some ph -> find_phone r' q = Some ph).
Proof.
  intros H; destruct (add_phone_inv r r' p H) as [_ ->]; cbn [name phones].
  split; [reflexivity|]; split; [reflexivity|]; split.
  - unfold find_phone; cbn [phones].
    destruct (find (fun phone => pystr_eqb (value phone) p) (phones r)) eqn:F.
    + rewrite (find_app_hit _ _ _ _ F).
      destruct (find_phone_some r p f F) as [-> _]; reflexivity.
    + rewrite (find_app_miss _ _ _ F); simpl.
      rewrite pystr_eqb_refl; reflexivity.
  - intros q ph F; unfold find_phone in *; cbn [phones].
    apply find_app_hit; exact F.
Qed.

Lemma add_phone_then_find_phone_witness :
  find_phone
    {| name := {| value := py "ann" |};
       phones := [{| value := py "0123456789" |};
                  {| value := py "9876543210" |}] |}
    (py "9876543210")
  = Some {| value := py "9876543210" |}.
Proof.
  exact (proj1 (proj2 (proj2
    (add_phone_then_find_phone
       (contact (py "ann") (py "0123456789")) _ (py "9876543210") eq_refl)))).
Defined.

(** X2: [find_phone] returns [None] exactly when no phone of the record
    has the value asked for; otherwise it returns a phone of the record
    with that value. *)
Theorem find_phone_spec (r : ContactRecord) (q : pystr) :
  (find_phone r q = None
   <-> forall ph, In ph (phones r) -> value ph <> q)
  /\ (find_phone r q = Some {| value := q |}
      <-> exists ph, In ph (phones r) /\ value ph = q)
  /\ (forall ph,
        find_phone r q = Some ph -> value ph = q /\ In ph (phones r)).
Proof.
  assert (S3 : forall ph,
             find_phone r q = Some ph -> value ph = q /\ In ph (phones r)).
  { intros ph F; destruct (find_phone_some r q ph F) as [-> Hin].
    split; [reflexivity | exact Hin]. }
  assert (S1 : find_phone r q = None
               <-> forall ph, In ph (phones r) -> value ph <> q).
  { unfold find_phone; split.
    - intros F ph Hin E.
      pose proof (find_none _ _ F ph Hin) as N; cbv beta in N.
      rewrite E, pystr_eqb_refl in N; discriminate.
    - intros H.
      destruct (find (fun phone => pystr_eqb (value phone) q) (phones r))
        eqn:F; [|reflexivity].
      apply find_some in F; destruct F as [Hin E].
      apply pystr_eqb_eq in E; elim (H f Hin E). }
  split; [exact S1|]; split; [|exact S3].
  split.
  - intros F; exists {| value := q |}; destruct (S3 _ F); auto.
  - intros [ph [Hin E]].
    destruct (find_phone r q) as [f|] eqn:F.
    + destruct (find_phone_some r q f F) as [-> _]; reflexivity.
    + elim (proj1 S1 eq_refl ph Hin E).
Qed.


Lemma Record_init_ok (nm : pystr) :
  Name_init nm = Ok (Field_init nm) ->
  Record_init nm = Ok {| name := {| value := nm |}; phones := [] |}.
Proof. intros H; unfold Record_init; rewrite H; reflexivity. Qed.

Lemma Record_init_raise (nm : pystr) :
  Name_init nm = Raise ValueError -> Record_init nm = Raise ValueError.
Proof. intros H; unfold Record_init; rewrite H; reflexivity. Qed.

Lemma valid_phone_iff (p : pystr) :
  valid_phone p <-> Phone_init p = Ok (Field_init p).
Proof. unfold valid_phone; symmetry; apply Phone_init_ok_iff. Qed.

Lemma valid_name_iff (nm : pystr) :
  valid_name nm <-> Name_init nm = Ok (Field_init nm).
Proof. unfold valid_name; symmetry; apply Name_init_ok_iff. Qed.

(** X3: a record is valid from its construction on: [Record] succeeds
    exactly on the names that are not blank and gives a valid record
    with that name and no phone; [add_phone] succeeds exactly on the
    strings of ten digits, and keeps a valid record valid. *)
Theorem record_valid_kept :
  (forall nm r,
      Record_init nm = Ok r ->
      record_valid r /\ r = {| name := {| value := nm |}; phones := [] |})
  /\ (forall nm, (exists r, Record_init nm = Ok r) <-> valid_name nm)
  /\ (forall nm, Record_init nm = Raise ValueError <-> ~ valid_name nm)
  /\ (forall r p r',
        record_valid r -> add_phone r p = Ok r' -> record_valid r')
  /\ (forall r p, (exists r', add_phone r p = Ok r') <-> valid_phone p)
  /\ (forall r p, add_phone r p = Raise ValueError <-> ~ valid_phone p).
Proof.
  split; [|split; [|split; [|split; [|split]]]].
  - intros nm r H; destruct (Name_init_cases nm) as [E|E].
    + rewrite (Record_init_ok nm E) in H; injection H as <-.
      split; [|reflexivity]; split; [|constructor].
      apply valid_name_iff; exact E.
    + rewrite (Record_init_raise nm E) in H; discriminate.
  - intros nm; rewrite valid_name_iff; split.
    + intros [r H]; destruct (Name_init_cases nm) as [E|E]; [exact E|].
      rewrite (Record_init_raise nm E) in H; discriminate.
    + intros E; eexists; apply Record_init_ok; exact E.
  - intros nm; rewrite valid_name_iff; split.
    + intros H E; rewrite (Record_init_ok nm E) in H; discriminate.
    + intros H; destruct (Name_init_cases nm) as [E|E]; [contradiction|].
      apply Record_init_raise; exact E.
  - intros r p r' [Vn Vp] H.
    destruct (add_phone_inv r r' p H) as [E ->]; split; cbn [name phones].
    + exact Vn.
    + apply Forall_app; split; [exact Vp|].
      constructor; [apply valid_phone_iff; exact E | constructor].
  - intros r p; rewrite valid_phone_iff; split.
    + intros [r' H]; apply (add_phone_inv r r' p H).
    + intros E; eexists; apply add_phone_ok; exact E.
  - intros r p; rewrite valid_phone_iff; split.
    + intros H E; rewrite (add_phone_ok r p E) in H; discriminate.
    + intros H; destruct (Phone_init_cases p) as [E|E]; [contradiction|].
      apply add_phone_raise; exact E.
Qed.

(** ** Rendering *)

Lemma occurs_in_refl (s : pystr) : occurs_in s s.
Proof. exists [], []; rewrite app_nil_r; reflexivity. Qed.

Lemma occurs_in_app_l (sub a b : pystr) : occurs_in sub a -> occurs_in sub (a ++ b).
Proof.
  intros [pre [post ->]]; exists pre, (post ++ b).
  rewrite <- !app_assoc; reflexivity.
Qed.

Lemma occurs_in_app_r (sub a b : pystr) : occurs_in sub b -> occurs_in sub (a ++ b).
Proof.
  intros [pre [post ->]]; exists (a ++ pre), post.
  rewrite <- !app_assoc; reflexivity.
Qed.

Lemma join_cons (sep p : pystr) (q : pystr) (rest : list pystr) :
  join sep (p :: q :: rest) = p ++ sep ++ join sep (q :: rest).
Proof. reflexivity. Qed.

(** Every part occurs in the joined string. *)
Lemma join_occurs (sep p : pystr) (parts : list pystr) :
  In p parts -> occurs_in p (join sep parts).
Proof.
  induction parts as [|a [|b parts] IH]; intros Hin.
  - destruct Hin.
  - destruct Hin as [->|[]]; apply occurs_in_refl.
  - rewrite join_cons; destruct Hin as [->|Hin].
    + apply occurs_in_app_l, occurs_in_refl.
    + apply occurs_in_app_r, occurs_in_app_r, IH; exact Hin.
Qed.

Lemma join_snoc (sep p : pystr) (q : pystr) (parts : list pystr) :
  join sep ((q :: parts) ++ [p]) = join sep (q :: parts) ++ sep ++ p.
Proof.
  revert q; induction parts as [|a parts IH]; intros q; [reflexivity|].
  change ((q :: a :: parts) ++ [p]) with (q :: ((a :: parts) ++ [p])).
  cbn [app]; rewrite !join_cons.
  change (a :: parts ++ [p]) with ((a :: parts) ++ [p]).
  rewrite IH, <- !app_assoc; reflexivity.
Qed.

(** X4: the string form of a record begins with
    "Contact name: <name>, phones: " and every phone of the record
    occurs in it; with no phone it is that beginning alone; a phone
    added by [add_phone] extends it, by the phone for the first one and
    by "; " and the phone for a later one. *)
Theorem Record_str_shows_fields (r : ContactRecord) :
  prefix_of (py "Contact name: " ++ value (name r) ++ py ", phones: ")
            (Record_str r)
  /\ (forall ph, In ph (phones r) -> occurs_in (value ph) (Record_str r))
  /\ (phones r = [] ->
      Record_str r = py "Contact name: " ++ value (name r) ++ py ", phones: ")
  /\ (forall p r',
        add_phone r p = Ok r' ->
        Record_str r'
        = Record_str r ++ (match phones r with [] => [] | _ => py "; " end) ++ p).
Proof.
  split; [|split; [|split]].
  - exists (join (py "; ") (map value (phones r))).
    unfold Record_str; rewrite <- !app_assoc; reflexivity.
  - intros ph Hin; unfold Record_str.
    do 3 apply occurs_in_app_r.
    apply join_occurs, in_map, Hin.
  - intros E; unfold Record_str; rewrite E; cbn [map join].
    rewrite !app_nil_r; reflexivity.
  - intros p r' H; destruct (add_phone_inv r r' p H) as [_ ->].
    unfold Record_str; cbn [name phones]; rewrite map_app; cbn [map value].
    destruct (phones r) as [|q qs]; cbn [map app].
    + cbn [join]; rewrite ?app_nil_r, <- ?app_assoc; reflexivity.
    + change (value q :: map value qs ++ [p])
        with ((value q :: map value qs) ++ [p]).
      rewrite join_snoc, <- !app_assoc; reflexivity.
Qed.

Lemma setitem_absent {V} (k : pystr) (v : V) (d : PyDict.t V) :
  PyDict.get k d = None -> PyDict.setitem k v d = d ++ [(k, v)].
Proof.
  induction d as [|[k0 v0] d IH]; simpl; [reflexivity|].
  destruct (pystr_eqb k k0); [discriminate|].
  intros H; rewrite (IH H); reflexivity.
Qed.

Lemma keys_setitem_present {V} (k : pystr) (v : V) (d : PyDict.t V) :
  PyDict.contains k d = true ->
  PyDict.keys (PyDict.setitem k v d) = PyDict.keys d.
Proof.
  unfold PyDict.contains, PyDict.keys.
  induction d as [|[k0 v0] d IH]; simpl; [discriminate|].
  destruct (pystr_eqb k k0) eqn:E; simpl.
  - apply pystr_eqb_eq in E; subst; reflexivity.
  - intros H; rewrite (IH H); reflexivity.
Qed.

(** X5: the string form of the book is empty for the empty book and
    otherwise holds the string form of every stored record; storing a
    record under a new name in a book that is not empty adds a line
    break and the record's string form at its end. *)
Theorem AddressBook_str_shows_records (book : AddressBook) :
  (records book = [] -> AddressBook_str book = [])
  /\ (forall k r,
        In (k, r) (records book) ->
        occurs_in (Record_str r) (AddressBook_str book))
  /\ (forall r,
        records book <> [] ->
        PyDict.get (value (name r)) (records book) = None ->
        AddressBook_str (snd (add_record r book))
        = AddressBook_str book ++ newline ++ Record_str r).
Proof.
  unfold AddressBook_str, PyDict.values; split; [|split].
  - intros E; rewrite E; reflexivity.
  - intros k r Hin; apply join_occurs.
    apply in_map; exact (in_map snd _ _ Hin).
  - intros r NE G; rewrite add_record_run; cbn [snd records].
    rewrite (setitem_absent _ _ _ G), !map_app; cbn [map snd].
    destruct (records book) as [|[k0 r0] d]; [contradiction|].
    cbn [map snd app].
    change (Record_str r0 :: map Record_str (map snd d) ++ [Record_str r])
      with ((Record_str r0 :: map Record_str (map snd d)) ++ [Record_str r]).
    rewrite join_snoc; reflexivity.
Qed.

(** ** More on the handlers *)

(** X6: [add_contact] raises nothing and has two outcomes.  On a list of
    exactly two strings, a name that is not blank and a phone of ten
    digits, it stores the record with that one phone under the name and
    returns "Contact <name> added.".  On every other list (shorter,
    longer, or with an invalid name or phone) it returns
    "Invalid input format." and leaves the book as it was. *)
Theorem add_contact_cases (args : list pystr) (book : AddressBook) :
  (exists nm phone,
      args = [nm; phone] /\ valid_name nm /\ valid_phone phone
      /\ add_contact args book
         = (Ok (added nm),
            {| records :=
                 PyDict.setitem nm (contact nm phone) (records book) |}))
  \/ ((forall nm phone,
          args = [nm; phone] -> ~ (valid_name nm /\ valid_phone phone))
      /\ add_contact args book = (Ok (py "Invalid input format."), book)).
Proof.
  destruct args as [|a [|b [|c args]]];
    try (right; split; [intros nm phone E; discriminate | reflexivity]).
  destruct (Name_init_cases a) as [Hn|Hn];
    destruct (Phone_init_cases b) as [Hp|Hp].
  - left; exists a, b; split; [reflexivity|].
    split; [apply valid_name_iff; exact Hn|].
    split; [apply valid_phone_iff; exact Hp|].
    apply add_contact_ok; assumption.
  - right; split; [|apply add_contact_invalid; tauto].
    intros nm phone E [_ V]; injection E as <- <-.
    apply valid_phone_iff in V; congruence.
  - right; split; [|apply add_contact_invalid; tauto].
    intros nm phone E [V _]; injection E as <- <-.
    apply valid_name_iff in V; congruence.
  - right; split; [|apply add_contact_invalid; tauto].
    intros nm phone E [V _]; injection E as <- <-.
    apply valid_name_iff in V; congruence.
Qed.

Lemma Record_str_not_missing (r : ContactRecord) :
  Record_str r <> py "Contact not found.".
Proof. unfold Record_str; simpl; discriminate. Qed.

Lemma get_phone_run (nm : pystr) (rest : list pystr) (book : AddressBook) :
  get_phone (nm :: rest) book
  = (Ok (match PyDict.get nm (records book) with
         | Some r => Record_str r
         | None => py "Contact not found."
         end), book).
Proof. run_handler; destruct (PyDict.get nm (records book)); reflexivity. Qed.

(** X7: [get_phone] answers "Contact not found." exactly when the name
    is not in the book; for a name in the book it returns the string
    form of its record.  Arguments after the first are not looked at,
    and the book is not changed. *)
Theorem get_phone_not_found_iff (nm : pystr) (rest : list pystr)
    (book : AddressBook) :
  (get_phone (nm :: rest) book = (Ok (py "Contact not found."), book)
   <-> PyDict.get nm (records book) = None)
  /\ (forall r,
        PyDict.get nm (records book) = Some r ->
        get_phone (nm :: rest) book = (Ok (Record_str r), book))
  /\ get_phone (nm :: rest) book = get_phone [nm] book.
Proof.
  rewrite !get_phone_run; split; [|split].
  - destruct (PyDict.get nm (records book)) as [r|]; split; auto.
    + intros H; elim (Record_str_not_missing r).
      assert (E : Ok (Record_str r) = Ok (py "Contact not found."))
        by exact (f_equal fst H).
      exact (f_equal (fun x => match x with Ok a => a | Raise _ => [] end) E).
    + discriminate.
  - intros r ->; reflexivity.
  - reflexivity.
Qed.

Lemma remove_setitem_absent {V} (k : pystr) (v : V) (d : PyDict.t V) :
  PyDict.get k d = None -> PyDict.remove k (PyDict.setitem k v d) = d.
Proof.
  induction d as [|[k0 v0] d IH]; simpl.
  - rewrite pystr_eqb_refl; reflexivity.
  - destruct (pystr_eqb k k0) eqn:E; [discriminate|]; simpl; rewrite E.
    intros H; rewrite (IH H); reflexivity.
Qed.

Lemma delete_run (nm : pystr) (book : AddressBook) :
  delete nm book
  = (Ok tt,
     if PyDict.contains nm (records book)
     then {| records := PyDict.remove nm (records book) |}
     else book).
Proof.
  unfold delete, bind, get, lift, put, ret, PyDict.delitem.
  destruct (PyDict.contains nm (records book)); reflexivity.
Qed.

Lemma book_eta (book : AddressBook) : {| records := records book |} = book.
Proof. destruct book; reflexivity. Qed.

(** X8: [delete] undoes [add_record] of a new name: storing a record
    under a name that is not in the book and then deleting that name
    gives back the book as it was, items and order. *)
Theorem delete_undoes_add_record (r : ContactRecord) (book : AddressBook) :
  PyDict.get (value (name r)) (records book) = None ->
  delete (value (name r)) (snd (add_record r book)) = (Ok tt, book).
Proof.
  intros G; rewrite add_record_run, delete_run; cbn [snd records].
  rewrite contains_setitem, (remove_setitem_absent _ _ _ G), book_eta.
  reflexivity.
Qed.

Lemma delete_undoes_add_record_witness :
  delete (py "ann")
    (snd (add_record (contact (py "ann") (py "0123456789")) AddressBook_init))
  = (Ok tt, AddressBook_init).
Proof.
  exact (delete_undoes_add_record (contact (py "ann") (py "0123456789"))
           AddressBook_init eq_refl).
Defined.

Lemma setitem_setitem {V} (k : pystr) (v1 v2 : V) (d : PyDict.t V) :
  PyDict.setitem k v2 (PyDict.setitem k v1 d) = PyDict.setitem k v2 d.
Proof.
  induction d as [|[k0 v0] d IH]; simpl.
  - rewrite pystr_eqb_refl; reflexivity.
  - destruct (pystr_eqb k k0) eqn:E; simpl.
    + rewrite pystr_eqb_refl; reflexivity.
    + rewrite E, IH; reflexivity.
Qed.

(** X9: a record stored over another of the same name leaves no trace
    of the first: the book is the one that storing the second alone
    gives, so storing the same record twice is storing it once. *)
Theorem add_record_last_wins (r1 r2 : ContactRecord) (book : AddressBook) :
  value (name r1) = value (name r2) ->
  snd (add_record r2 (snd (add_record r1 book))) = snd (add_record r2 book).
Proof.
  intros E; rewrite !add_record_run; cbn [snd records].
  rewrite E, setitem_setitem; reflexivity.
Qed.

Lemma add_record_last_wins_witness :
  snd (add_record (contact (py "ann") (py "9876543210"))
         (snd (add_record (contact (py "ann") (py "0123456789"))
                 AddressBook_init)))
  = snd (add_record (contact (py "ann") (py "9876543210")) AddressBook_init).
Proof.
  exact (add_record_last_wins (contact (py "ann") (py "0123456789"))
           (contact (py "ann") (py "9876543210")) AddressBook_init eq_refl).
Defined.

(** X10: [add_record] keeps the order of the book: a record with a new
    name goes last, a record with a name that is there takes the place
    of the old one (the names and their order do not change), and the
    records under other names are not touched. *)
Theorem add_record_keeps_order (r : ContactRecord) (book : AddressBook) :
  let k := value (name r) in
  let book' := snd (add_record r book) in
  (PyDict.get k (records book) = None ->
   records book' = records book ++ [(k, r)])
  /\ (PyDict.contains k (records book) = true ->
      PyDict.keys (records book') = PyDict.keys (records book))
  /\ (forall other,
        other <> k ->
        PyDict.get other (records book') = PyDict.get other (records book))
  /\ PyDict.get k (records book') = Some r.
Proof.
  cbv zeta; rewrite add_record_run; cbn [snd records].
  split; [apply setitem_absent|].
  split; [apply keys_setitem_present|].
  split; [intros other N; apply get_setitem_other; exact N|].
  apply get_setitem_same.
Qed.

Lemma Forall_setitem {V} (P : pystr * V -> Prop) (k : pystr) (v : V)
    (d : PyDict.t V) :
  Forall P d -> P (k, v) -> Forall P (PyDict.setitem k v d).
Proof.
  intros F Pk; induction d as [|[k0 v0] d IH]; simpl.
  - constructor; [exact Pk | constructor].
  - inversion F as [|? ? P0 Fd]; subst.
    destruct (pystr_eqb k k0); constructor; auto.
Qed.

Lemma Forall_remove {V} (P : pystr * V -> Prop) (k : pystr) (d : PyDict.t V) :
  Forall P d -> Forall P (PyDict.remove k d).
Proof.
  intros F; induction d as [|[k0 v0] d IH]; simpl; [constructor|].
  inversion F as [|? ? P0 Fd]; subst.
  destruct (pystr_eqb k k0); [exact Fd | constructor; auto].
Qed.

Lemma get_In {V} (k : pystr) (v : V) (d : PyDict.t V) :
  PyDict.get k d = Some v -> In (k, v) d.
Proof.
  induction d as [|[k0 v0] d IH]; simpl; [discriminate|].
  destruct (pystr_eqb k k0) eqn:E.
  - apply pystr_eqb_eq in E; subst; intros H; injection H as ->; auto.
  - intros H; right; apply IH; exact H.
Qed.

Lemma cli_book_init : cli_book AddressBook_init.
Proof. split; constructor. Qed.

Lemma cli_book_add_contact (args : list pystr) (book : AddressBook) :
  cli_book book -> cli_book (snd (add_contact args book)).
Proof.
  intros [W F]; destruct args as [|a [|b [|c args]]]; try (split; assumption).
  destruct (Name_init_cases a) as [Hn|Hn];
    destruct (Phone_init_cases b) as [Hp|Hp];
    try (rewrite add_contact_invalid by tauto; split; assumption).
  rewrite (add_contact_ok a b book Hn Hp); cbn [snd]; split; cbn [records].
  - apply wf_setitem; exact W.
  - apply Forall_setitem; [exact F|].
    exists b; cbn [fst snd]; split; [reflexivity|].
    split; [apply valid_name_iff | apply valid_phone_iff]; assumption.
Qed.

Lemma cli_book_delete (nm : pystr) (book : AddressBook) :
  cli_book book -> cli_book (snd (delete nm book)).
Proof.
  intros [W F]; rewrite delete_run; cbn [snd].
  destruct (PyDict.contains nm (records book)); [|split; assumption].
  split; cbn [records]; [apply wf_remove; exact W | apply Forall_remove; exact F].
Qed.

(** X11: the books made by the handlers have every record under its own
    name, with a name that is not blank and exactly one phone, of ten
    digits.  This holds of the empty book and is kept by [add_contact]
    and by [delete], whatever their arguments; in such a book, lookup
    by a name gives a record of that name. *)
Theorem cli_book_kept :
  cli_book AddressBook_init
  /\ (forall args book, cli_book book -> cli_book (snd (add_contact args book)))
  /\ (forall nm book, cli_book book -> cli_book (snd (delete nm book)))
  /\ (forall book k r,
        cli_book book ->
        PyDict.get k (records book) = Some r ->
        value (name r) = k /\ record_valid r
        /\ List.length (phones r) = 1%nat).
Proof.
  split; [exact cli_book_init|].
  split; [exact cli_book_add_contact|].
  split; [exact cli_book_delete|].
  intros book k r [_ F] G; apply get_In in G.
  rewrite Forall_forall in F; destruct (F _ G) as [p [E [Vn Vp]]].
  cbn [fst snd] in *; subst r; cbn [contact name value phones].
  split; [reflexivity|]; split; [|reflexivity].
  split; [exact Vn | constructor; [exact Vp | constructor]].
Qed.


(** ** The command loop *)

Lemma add_contact_msg (args : list pystr) (book : AddressBook) :
  exists msg,
    add_contact args book = (Ok msg, snd (add_contact args book))
    /\ (msg = py "Invalid input format." \/ exists nm, msg = added nm).
Proof.
  destruct args as [|a [|b [|c args]]];
    try (eexists; split; [reflexivity | left; reflexivity]).
  destruct (Name_init_cases a) as [Hn|Hn];
    destruct (Phone_init_cases b) as [Hp|Hp];
    try (rewrite add_contact_invalid by tauto;
         eexists; split; [reflexivity | left; reflexivity]).
  rewrite (add_contact_ok a b book Hn Hp).
  eexists; split; [reflexivity | right; exists a; reflexivity].
Qed.

Lemma of_nat_ltb (n m : nat) : (N.of_nat n <? N.of_nat m) = Nat.ltb n m.
Proof.
  destruct (Nat.ltb_spec n m) as [H|H].
  - apply N.ltb_lt; lia.
  - apply N.ltb_ge; lia.
Qed.

Lemma world_out (w : World) :
  {| address_book := address_book w; stdout := stdout w |} = w.
Proof. destruct w; reflexivity. Qed.

(** Every turn of the loop is one of the cases of [turn]: it raises
    nothing and adds what it prints to standard output. *)
Lemma main_iteration_turn (raw : pystr) (w : World) :
  exists fl book' out,
    turn (lower raw) (address_book w) fl book' out
    /\ main_iteration raw w
       = (Ok fl, {| address_book := book'; stdout := stdout w ++ out |}).
Proof.
  unfold main_iteration; set (com := lower raw).
  destruct (pystr_eqb com (py "hello")) eqn:Eh.
  { apply pystr_eqb_eq in Eh.
    do 3 eexists; split; [apply turn_hello; exact Eh | reflexivity]. }
  destruct (startswith com (py "add")) eqn:Ea.
  { change 3 with (N.of_nat 3); rewrite of_nat_ltb.
    destruct (split com space) as [|cmd [|nm [|number rest]]] eqn:Es;
      try (do 3 eexists; split;
           [apply turn_add_usage; [exact Ea | rewrite Es; simpl; lia]
           | reflexivity]).
    destruct (add_contact_msg [nm; number] (address_book w)) as [msg [E _]].
    do 3 eexists; split; [eapply turn_add; [exact Ea | exact Es | exact E]|].
    cbn [List.length Nat.ltb Nat.leb].
    unfold bind, lift, call, getitem; cbn [nth_error].
    rewrite E; reflexivity. }
  destruct (startswith com (py "phone")) eqn:Ep.
  { change 2 with (N.of_nat 2); rewrite of_nat_ltb.
    destruct (split com space) as [|cmd [|nm rest]] eqn:Es;
      try (do 3 eexists; split;
           [apply turn_phone_usage; [exact Ea | exact Ep | rewrite Es; simpl; lia]
           | reflexivity]).
    pose proof (get_phone_run nm [] (address_book w)) as E.
    do 3 eexists; split;
      [eapply turn_phone; [exact Ea | exact Ep | exact Es | exact E]|].
    cbn [List.length Nat.ltb Nat.leb].
    unfold bind, lift, call, getitem; cbn [nth_error].
    rewrite E; reflexivity. }
  destruct (pystr_eqb com (py "all")) eqn:El.
  { apply pystr_eqb_eq in El.
    destruct (records (address_book w)) as [|kv d] eqn:Er.
    - do 3 eexists; split; [apply turn_all_empty; assumption|].
      unfold bind, call, get; cbn; rewrite Er; reflexivity.
    - do 3 eexists; split;
        [apply turn_all; [exact El | rewrite Er; discriminate]|].
      unfold bind, call, get; cbn; rewrite Er; cbn.
      rewrite <- app_assoc; reflexivity. }
  destruct (pystr_eqb com (py "exit")) eqn:Ex.
  { apply pystr_eqb_eq in Ex.
    do 3 eexists; split; [apply turn_exit; exact Ex | reflexivity]. }
  do 3 eexists; split; [|reflexivity].
  apply turn_invalid; try assumption;
    intros E; rewrite E in *; discriminate.
Qed.

Lemma add_not_exit (com : pystr) :
  startswith com (py "add") = true -> com <> py "exit".
Proof. intros H E; rewrite E in H; discriminate. Qed.

Lemma phone_not_exit (com : pystr) :
  startswith com (py "phone") = true -> com <> py "exit".
Proof. intros H E; rewrite E in H; discriminate. Qed.

Lemma turn_break (com : pystr) (book book' : AddressBook) (fl : flow)
    (out : list pystr) :
  turn com book fl book' out -> (fl = Break <-> com = py "exit").
Proof.
  intros T; destruct T; subst;
    try (split; [reflexivity | reflexivity]);
    try (split; [discriminate | discriminate]);
    split; try discriminate; intros E;
    try (elim (add_not_exit _ H E)); try (elim (phone_not_exit _ H0 E));
    contradiction.
Qed.




Lemma added_not_arity (nm : pystr) : added nm <> py "Not enough arguments.".
Proof. unfold added; simpl; discriminate. Qed.

Lemma Record_str_not_arity (r : ContactRecord) :
  Record_str r <> py "Not enough arguments.".
Proof. unfold Record_str; simpl; discriminate. Qed.

Lemma AddressBook_str_not_arity (book : AddressBook) :
  records book <> [] -> AddressBook_str book <> py "Not enough arguments.".
Proof.
  unfold AddressBook_str, PyDict.values.
  destruct (records book) as [|[k r] [|kv d]]; [contradiction| |]; intros _.
  - cbn [map snd join]; apply Record_str_not_arity.
  - cbn [map snd]; rewrite join_cons; unfold Record_str; simpl; discriminate.
Qed.

Lemma turn_no_arity (com : pystr) (book book' : AddressBook) (fl : flow)
    (out : list pystr) :
  turn com book fl book' out -> ~ In (py "Not enough arguments.") out.
Proof.
  intros T; destruct T; simpl;
    try (intros [E|[]]; discriminate E).
  - destruct (add_contact_msg [nm; number] book) as [m [E [->| [n ->]]]];
      rewrite E in H1; injection H1 as <- _; intros [E'|[]].
    + discriminate E'.
    + exact (added_not_arity n E').
  - rewrite get_phone_run in H2; injection H2 as <-; intros [E'|[]].
    destruct (PyDict.get nm (records book)) as [r|].
    + exact (Record_str_not_arity r E').
    + discriminate E'.
  - intros [E|[E|[]]]; [discriminate E|].
    exact (AddressBook_str_not_arity book H0 E).
Qed.

(** X13: on a line of ASCII characters the command loop never prints
    "Not enough arguments.": it calls the handlers with one name, or a
    name and a number, so the message the decorator has for
    [IndexError] cannot come out. *)
Theorem main_never_prints_arity_message (raw : pystr) (w : World)
    (out : list pystr) :
  is_ascii raw ->
  stdout (snd (main_iteration raw w)) = stdout w ++ out ->
  ~ In (py "Not enough arguments.") out.
Proof.
  intros _ S; destruct (main_iteration_turn raw w) as [fl [book' [out' [T E]]]].
  rewrite E in S; cbn [snd stdout] in S; apply app_inv_head in S; subst out'.
  exact (turn_no_arity _ _ _ _ _ T).
Qed.

Lemma main_never_prints_arity_message_witness :
  ~ In (py "Not enough arguments.") [py "Contact not found."].
Proof.
  assert (A : is_ascii (py "phone ")) by (unfold is_ascii; simpl; repeat constructor).
  exact (main_never_prints_arity_message (py "phone ")
           {| address_book := AddressBook_init; stdout := [] |}
           [py "Contact not found."] A eq_refl).
Defined.

Lemma add_contact_book (args : list pystr) (book : AddressBook) :
  snd (add_contact args book) = book
  \/ exists nm p,
      valid_name nm /\ valid_phone p /\ args = [nm; p]
      /\ snd (add_contact args book)
         = {| records := PyDict.setitem nm (contact nm p) (records book) |}.
Proof.
  destruct args as [|a [|b [|c args]]]; try (left; reflexivity).
  destruct (Name_init_cases a) as [Hn|Hn];
    destruct (Phone_init_cases b) as [Hp|Hp];
    try (left; rewrite add_contact_invalid by tauto; reflexivity).
  right; exists a, b; rewrite (add_contact_ok a b book Hn Hp).
  split; [apply valid_name_iff; exact Hn|].
  split; [apply valid_phone_iff; exact Hp|].
  split; reflexivity.
Qed.

Lemma contains_setitem_mono {V} (k k' : pystr) (v : V) (d : PyDict.t V) :
  PyDict.contains k' d = true ->
  PyDict.contains k' (PyDict.setitem k v d) = true.
Proof.
  unfold PyDict.contains; intros H.
  destruct (pystr_eqb k' k) eqn:E.
  - apply pystr_eqb_eq in E; subst; rewrite get_setitem_same; reflexivity.
  - rewrite get_setitem_other; [exact H|].
    intros ->; rewrite pystr_eqb_refl in E; discriminate.
Qed.

Lemma size_setitem_bounds {V} (k : pystr) (v : V) (d : PyDict.t V) :
  PyDict.size d <= PyDict.size (PyDict.setitem k v d) <= PyDict.size d + 1.
Proof.
  destruct (PyDict.contains k d) eqn:C.
  - rewrite (size_setitem_present k v d C); lia.
  - rewrite (size_setitem_absent k v d C); lia.
Qed.

Lemma turn_book (com : pystr) (book book' : AddressBook) (fl : flow)
    (out : list pystr) :
  turn com book fl book' out ->
  (startswith com (py "add") = false -> book' = book)
  /\ (forall k,
        PyDict.contains k (records book) = true ->
        PyDict.contains k (records book') = true)
  /\ PyDict.size (records book) <= PyDict.size (records book')
     <= PyDict.size (records book) + 1.
Proof.
  intros T; destruct T;
    try (split; [reflexivity | split; [auto | lia]]).
  split; [intros E; congruence|].
  destruct (add_contact_book [nm; number] book) as [E|[n [p [_ [_ [_ E]]]]]];
    rewrite H1 in E; cbn [snd] in E; subst book'.
  - split; [auto | lia].
  - cbn [records]; split;
      [intros k; apply contains_setitem_mono | apply size_setitem_bounds].
Qed.

(** X14: what a turn of the loop does to the book, for a line of ASCII
    characters: only a line whose lower-cased form begins with "add" can
    change it; no turn takes a name out of the book; and a turn adds at
    most one name. *)
Theorem main_iteration_book (raw : pystr) (w : World) :
  is_ascii raw ->
  let book := address_book w in
  let book' := address_book (snd (main_iteration raw w)) in
  (startswith (lower raw) (py "add") = false -> book' = book)
  /\ (forall k,
        PyDict.contains k (records book) = true ->
        PyDict.contains k (records book') = true)
  /\ PyDict.size (records book) <= PyDict.size (records book')
     <= PyDict.size (records book) + 1.
Proof.
  intros _; cbv zeta.
  destruct (main_iteration_turn raw w) as [fl [book' [out [T E]]]].
  rewrite E; cbn [snd address_book]; exact (turn_book _ _ _ _ _ T).
Qed.

Lemma main_iteration_book_witness :
  address_book
    (snd (main_iteration (py "all")
            {| address_book := AddressBook_init; stdout := [] |}))
  = AddressBook_init.
Proof.
  assert (A : is_ascii (py "all")) by (unfold is_ascii; simpl; repeat constructor).
  exact (proj1 (main_iteration_book (py "all")
                  {| address_book := AddressBook_init; stdout := [] |} A)
           eq_refl).
Defined.

(** ** Sessions of the loop *)

Lemma main_loop_cons (raw : pystr) (rest : list pystr) (w : World) :
  main_loop (raw :: rest) w
  = match main_iteration raw w with
    | (Ok Break, w') => (Ok tt, w')
    | (Ok Continue, w') => main_loop rest w'
    | (Raise e, w') => (Raise e, w')
    end.
Proof.
  cbn [main_loop]; unfold bind.
  destruct (main_iteration raw w) as [[[|]|e] w']; reflexivity.
Qed.

Lemma main_loop_continue (raw : pystr) (rest : list pystr) (w : World) :
  lower raw <> py "exit" ->
  exists w',
    main_iteration raw w = (Ok Continue, w')
    /\ main_loop (raw :: rest) w = main_loop rest w'.
Proof.
  intros N; destruct (main_iteration_turn raw w) as [fl [book' [out [T E]]]].
  destruct fl.
  - eexists; split; [exact E|]; rewrite main_loop_cons, E; reflexivity.
  - elim N; apply (turn_break _ _ _ _ _ T); reflexivity.
Qed.

Lemma main_loop_exit (raw : pystr) (rest : list pystr) (w : World) :
  lower raw = py "exit" ->
  main_loop (raw :: rest) w
  = (Ok tt, {| address_book := address_book w;
               stdout := stdout w ++ [py "Good bye!"] |}).
Proof.
  intros X; rewrite main_loop_cons.
  unfold main_iteration; rewrite X; reflexivity.
Qed.

Lemma main_loop_no_exit (lines : list pystr) (w : World) :
  (forall l, In l lines -> lower l <> py "exit") ->
  fst (main_loop lines w) = Raise EOFError.
Proof.
  revert w; induction lines as [|raw rest IH]; intros w H; [reflexivity|].
  destruct (main_loop_continue raw rest w (H raw (or_introl eq_refl)))
    as [w' [_ ->]].
  apply IH; intros l Hl; apply H; right; exact Hl.
Qed.

Lemma main_loop_stops (pre post : list pystr) (ex : pystr) (w : World) :
  (forall l, In l pre -> lower l <> py "exit") ->
  lower ex = py "exit" ->
  main_loop (pre ++ ex :: post) w = main_loop (pre ++ [ex]) w
  /\ fst (main_loop (pre ++ ex :: post) w) = Ok tt
  /\ exists out,
      stdout (snd (main_loop (pre ++ ex :: post) w)) = out ++ [py "Good bye!"].
Proof.
  revert w; induction pre as [|raw pre IH]; intros w H X; cbn [app].
  - rewrite !(main_loop_exit ex _ w X); split; [reflexivity|].
    split; [reflexivity | eexists; reflexivity].
  - destruct (main_loop_continue raw (pre ++ ex :: post) w
                (H raw (or_introl eq_refl))) as [w' [E ->]].
    destruct (main_loop_continue raw (pre ++ [ex]) w
                (H raw (or_introl eq_refl))) as [w'' [E' ->]].
    rewrite E in E'; injection E' as <-.
    apply IH; [intros l Hl; apply H; right; exact Hl | exact X].
Qed.

(** X15: the loop ends at the first line that lower-cases to "exit":
    the session succeeds, its last output is "Good bye!", and the lines
    after that one are not read (lines of ASCII characters). *)
Theorem main_stops_at_exit (pre post : list pystr) (ex : pystr) :
  Forall is_ascii (pre ++ ex :: post) ->
  (forall l, In l pre -> lower l <> py "exit") ->
  lower ex = py "exit" ->
  main (pre ++ ex :: post) = main (pre ++ [ex])
  /\ fst (main (pre ++ ex :: post)) = Ok tt
  /\ exists out,
      stdout (snd (main (pre ++ ex :: post))) = out ++ [py "Good bye!"].
Proof. intros _; unfold main; apply main_loop_stops. Qed.

Lemma main_stops_at_exit_witness :
  main [py "hello"; py "Exit"; py "add ann 0123456789"]
  = main [py "hello"; py "Exit"].
Proof.
  assert (A : Forall is_ascii ([py "hello"] ++ py "Exit" :: [py "add ann 0123456789"])).
  { unfold is_ascii; simpl; repeat constructor. }
  assert (B : forall l, In l [py "hello"] -> lower l <> py "exit").
  { intros l [<-|[]]; vm_compute; discriminate. }
  exact (proj1 (main_stops_at_exit [py "hello"] [py "add ann 0123456789"]
                  (py "Exit") A B eq_refl)).
Defined.

(** X16: a session with no line that lower-cases to "exit" ends with
    [EOFError] from [input], which [main] does not catch (lines of ASCII
    characters; the empty session included). *)
Theorem main_without_exit (lines : list pystr) :
  Forall is_ascii lines ->
  (forall l, In l lines -> lower l <> py "exit") ->
  fst (main lines) = Raise EOFError.
Proof. intros _; unfold main; apply main_loop_no_exit. Qed.

Lemma main_without_exit_witness :
  fst (main [py "hello"; py "all"]) = Raise EOFError.
Proof.
  assert (A : Forall is_ascii [py "hello"; py "all"]).
  { unfold is_ascii; simpl; repeat constructor. }
  assert (B : forall l, In l [py "hello"; py "all"] -> lower l <> py "exit").
  { intros l [<-|[<-|[]]]; vm_compute; discriminate. }
  exact (main_without_exit [py "hello"; py "all"] A B).
Defined.

(** ** Tokens *)

(** The pieces of [split] hold no separator, and only characters of the
    string. *)
Lemma split_pieces (s : pystr) (sep : N) (p : pystr) :
  In p (split s sep) -> ~ In sep p /\ (forall c, In c p -> In c s).
Proof.
  revert p; induction s as [|c s IH]; intros p; simpl.
  - intros [<-|[]]; split; [intros [] | intros c []].
  - destruct (c =? sep) eqn:E.
    + intros [<-|Hin]; [split; [intros [] | intros x []]|].
      destruct (IH p Hin) as [A B]; split; [exact A | intros x Hx; right; auto].
    + apply N.eqb_neq in E.
      destruct (split s sep) as [|w ws]; simpl.
      * intros [<-|[]]; split.
        -- intros [H|[]]; congruence.
        -- intros x [<-|[]]; left; reflexivity.
      * intros [<-|Hin].
        -- destruct (IH w (or_introl eq_refl)) as [A B]; split.
           ++ intros [H|H]; [congruence | exact (A H)].
           ++ intros x [<-|Hx]; [left; reflexivity | right; auto].
        -- destruct (IH p (or_intror Hin)) as [A B]; split;
             [exact A | intros x Hx; right; auto].
Qed.

Lemma split_token (p : pystr) (sep : N) : ~ In sep p -> split p sep = [p].
Proof.
  induction p as [|c p IH]; simpl; intros H; [reflexivity|].
  destruct (c =? sep) eqn:E; [apply N.eqb_eq in E; tauto|].
  rewrite IH by tauto; reflexivity.
Qed.

Lemma split_app_token (p s : pystr) (sep : N) :
  ~ In sep p -> split (p ++ sep :: s) sep = p :: split s sep.
Proof.
  induction p as [|c p IH]; simpl; intros H.
  - rewrite N.eqb_refl; reflexivity.
  - destruct (c =? sep) eqn:E; [apply N.eqb_eq in E; tauto|].
    rewrite IH by tauto; reflexivity.
Qed.

(** [split] undoes [join]: joining tokens with the separator and
    splitting at it gives the tokens back. *)
Lemma split_join (sep : N) (p : pystr) (parts : list pystr) :
  Forall (fun q => ~ In sep q) (p :: parts) ->
  split (join [sep] (p :: parts)) sep = p :: parts.
Proof.
  revert p; induction parts as [|q parts IH]; intros p F.
  - apply split_token; inversion F; assumption.
  - inversion F as [|? ? Hp Fq]; subst.
    rewrite join_cons; cbn [app].
    rewrite (split_app_token p _ sep Hp), (IH q Fq); reflexivity.
Qed.

Lemma lower_app (a b : pystr) : lower (a ++ b) = lower a ++ lower b.
Proof. apply map_app. Qed.

Lemma lower_join_space (parts : list pystr) :
  lower (join [space] parts) = join [space] (map lower parts).
Proof.
  induction parts as [|p [|q parts] IH]; [reflexivity | reflexivity|].
  rewrite join_cons, !lower_app, IH; reflexivity.
Qed.

Lemma lower_cp_space (c : N) : lower_cp c = space <-> c = space.
Proof.
  unfold lower_cp, space.
  destruct (N.leb_spec 65 c); destruct (N.leb_spec c 90); simpl; lia.
Qed.

Lemma no_space_lower (p : pystr) : no_space p -> no_space (lower p).
Proof.
  unfold no_space, lower; intros H Hin; apply in_map_iff in Hin.
  destruct Hin as [c [E Hc]]; apply (proj1 (lower_cp_space c)) in E.
  rewrite E in Hc; exact (H Hc).
Qed.

Lemma lower_no_upper (s : pystr) : no_upper (lower s).
Proof.
  unfold no_upper, lower; apply Forall_forall; intros c Hin.
  apply in_map_iff in Hin; destruct Hin as [x [<- _]]; unfold lower_cp.
  destruct (N.leb_spec 65 x); destruct (N.leb_spec x 90); simpl; lia.
Qed.

Lemma startswith_app (s t prefix : pystr) :
  startswith s prefix = true -> startswith (s ++ t) prefix = true.
Proof.
  revert s; induction prefix as [|p prefix IH]; intros s;
    [intros _; destruct (s ++ t); reflexivity|].
  destruct s as [|c s]; simpl; [discriminate|].
  rewrite !andb_true_iff; intros [A B]; split; [exact A | apply IH; exact B].
Qed.

Lemma startswith_not_hello (com : pystr) :
  startswith com (py "add") = true \/ startswith com (py "phone") = true ->
  pystr_eqb com (py "hello") = false.
Proof.
  intros H; destruct (pystr_eqb com (py "hello")) eqn:E; [|reflexivity].
  apply pystr_eqb_eq in E; subst; destruct H; discriminate.
Qed.

Lemma phone_not_add (com : pystr) :
  startswith com (py "phone") = true -> startswith com (py "add") = false.
Proof.
  destruct com as [|c com]; [discriminate|]; simpl.
  destruct (c =? 112) eqn:E; [|discriminate].
  apply N.eqb_eq in E; subst; reflexivity.
Qed.

Lemma add_line_run (cmd nm number : pystr) (rest : list pystr) (w : World) :
  Forall no_space (cmd :: nm :: number :: rest) ->
  startswith (lower cmd) (py "add") = true ->
  exists msg,
    add_contact [lower nm; lower number] (address_book w)
    = (Ok msg, snd (add_contact [lower nm; lower number] (address_book w)))
    /\ main_iteration (join (py " ") (cmd :: nm :: number :: rest)) w
       = (Ok Continue,
          {| address_book :=
               snd (add_contact [lower nm; lower number] (address_book w));
             stdout := stdout w ++ [msg] |}).
Proof.
  intros F S.
  destruct (add_contact_msg [lower nm; lower number] (address_book w))
    as [msg [E _]].
  exists msg; split; [exact E|].
  unfold main_iteration; change (py " ") with [space].
  rewrite lower_join_space.
  assert (Sc : startswith (join [space] (map lower (cmd :: nm :: number :: rest)))
                 (py "add") = true).
  { cbn [map]; rewrite join_cons; apply startswith_app; exact S. }
  rewrite (startswith_not_hello _ (or_introl Sc)), Sc.
  cbn [map]; rewrite split_join.
  - change 3 with (N.of_nat 3); rewrite of_nat_ltb.
    cbn [map List.length Nat.ltb Nat.leb].
    unfold bind, lift, call, getitem; cbn [nth_error].
    rewrite E; reflexivity.
  - change (Forall (fun q => ~ In space q)
              (map lower (cmd :: nm :: number :: rest))).
    apply Forall_forall; intros q Hq; apply in_map_iff in Hq.
    destruct Hq as [x [<- Hx]]; apply no_space_lower.
    rewrite Forall_forall in F; exact (F x Hx).
Qed.

Lemma phone_line_run (cmd nm : pystr) (rest : list pystr) (w : World) :
  Forall no_space (cmd :: nm :: rest) ->
  startswith (lower cmd) (py "phone") = true ->
  main_iteration (join (py " ") (cmd :: nm :: rest)) w
  = (Ok Continue,
     {| address_book := address_book w;
        stdout :=
          stdout w
          ++ [match PyDict.get (lower nm) (records (address_book w)) with
              | Some r => Record_str r
              | None => py "Contact not found."
              end] |}).
Proof.
  intros F S.
  unfold main_iteration; change (py " ") with [space].
  rewrite lower_join_space.
  assert (Sc : startswith (join [space] (map lower (cmd :: nm :: rest)))
                 (py "phone") = true).
  { cbn [map]; rewrite join_cons; apply startswith_app; exact S. }
  rewrite (startswith_not_hello _ (or_intror Sc)), (phone_not_add _ Sc), Sc.
  cbn [map]; rewrite split_join.
  - change 2 with (N.of_nat 2); rewrite of_nat_ltb.
    cbn [map List.length Nat.ltb Nat.leb].
    unfold bind, lift, call, getitem; cbn [nth_error].
    rewrite get_phone_run; reflexivity.
  - change (Forall (fun q => ~ In space q) (map lower (cmd :: nm :: rest))).
    apply Forall_forall; intros q Hq; apply in_map_iff in Hq.
    destruct Hq as [x [<- Hx]]; apply no_space_lower.
    rewrite Forall_forall in F; exact (F x Hx).
Qed.

(** X17: an [add] line of tokens with single spaces between them.  When
    the first token lower-cases to a word that begins with "add", the
    turn calls [add_contact] on the second and third tokens,
    lower-cased, prints its message and goes on; tokens after the third
    are not looked at (tokens of ASCII characters without spaces). *)
Theorem main_add_line (cmd nm number : pystr) (rest : list pystr) (w : World) :
  Forall is_ascii (cmd :: nm :: number :: rest) ->
  Forall no_space (cmd :: nm :: number :: rest) ->
  startswith (lower cmd) (py "add") = true ->
  exists msg book',
    add_contact [lower nm; lower number] (address_book w) = (Ok msg, book')
    /\ main_iteration (join (py " ") (cmd :: nm :: number :: rest)) w
       = (Ok Continue,
          {| address_book := book'; stdout := stdout w ++ [msg] |}).
Proof.
  intros _ F S; destruct (add_line_run cmd nm number rest w F S) as [msg [E R]].
  exists msg, (snd (add_contact [lower nm; lower number] (address_book w))).
  split; assumption.
Qed.

Lemma main_add_line_witness :
  exists msg book',
    add_contact [lower (py "John"); lower (py "1234567890")] AddressBook_init
    = (Ok msg, book')
    /\ main_iteration
         (join (py " ") [py "Address"; py "John"; py "1234567890"; py "x"])
         {| address_book := AddressBook_init; stdout := [] |}
       = (Ok Continue, {| address_book := book'; stdout := [] ++ [msg] |}).
Proof.
  assert (A : Forall is_ascii
                [py "Address"; py "John"; py "1234567890"; py "x"]).
  { unfold is_ascii; simpl; repeat constructor. }
  assert (B : Forall no_space
                [py "Address"; py "John"; py "1234567890"; py "x"]).
  { repeat constructor; vm_compute; intuition discriminate. }
  exact (main_add_line (py "Address") (py "John") (py "1234567890") [py "x"]
           {| address_book := AddressBook_init; stdout := [] |} A B eq_refl).
Defined.

(** X18: a [phone] line of tokens with single spaces between them.
    When the first token lower-cases to a word that begins with
    "phone", the turn prints the string form of the record stored under
    the second token, lower-cased, or "Contact not found." when there is
    none; the book is not changed and tokens after the second are not
    looked at (tokens of ASCII characters without spaces). *)
Theorem main_phone_line (cmd nm : pystr) (rest : list pystr) (w : World) :
  Forall is_ascii (cmd :: nm :: rest) ->
  Forall no_space (cmd :: nm :: rest) ->
  startswith (lower cmd) (py "phone") = true ->
  main_iteration (join (py " ") (cmd :: nm :: rest)) w
  = (Ok Continue,
     {| address_book := address_book w;
        stdout :=
          stdout w
          ++ [match PyDict.get (lower nm) (records (address_book w)) with
              | Some r => Record_str r
              | None => py "Contact not found."
              end] |}).
Proof. intros _; apply phone_line_run. Qed.

Lemma main_phone_line_witness :
  main_iteration (join (py " ") [py "PHONE"; py "Bob"])
    {| address_book := AddressBook_init; stdout := [] |}
  = (Ok Continue,
     {| address_book := AddressBook_init;
        stdout := [py "Contact not found."] |}).
Proof.
  assert (A : Forall is_ascii [py "PHONE"; py "Bob"]).
  { unfold is_ascii; simpl; repeat constructor. }
  assert (B : Forall no_space [py "PHONE"; py "Bob"]).
  { repeat constructor; vm_compute; intuition discriminate. }
  exact (main_phone_line (py "PHONE") (py "Bob") []
           {| address_book := AddressBook_init; stdout := [] |} A B eq_refl).
Defined.

Lemma isspace_cp_letter (x : N) : 33 <= x <= 132 -> isspace_cp x = false.
Proof.
  intros H; unfold isspace_cp, in_ranges, whitespace_table.
  cbn [existsb fst snd].
  repeat match goal with
         | |- context [(?a <=? ?b)] =>
             first [ replace (a <=? b) with false
                       by (symmetry; apply N.leb_gt; lia)
                   | replace (a <=? b) with true
                       by (symmetry; apply N.leb_le; lia) ]
         end.
  reflexivity.
Qed.

Lemma isspace_lower_cp (c : N) : isspace_cp (lower_cp c) = isspace_cp c.
Proof.
  unfold lower_cp.
  destruct (N.leb_spec 65 c); destruct (N.leb_spec c 90); simpl;
    try reflexivity.
  rewrite !isspace_cp_letter by lia; reflexivity.
Qed.

(** Lower-casing keeps a name valid. *)
Lemma valid_name_lower (nm : pystr) : valid_name nm -> valid_name (lower nm).
Proof.
  unfold valid_name; intros V E; apply V.
  apply strip_nil_iff in E; apply strip_nil_iff.
  rewrite Forall_forall in *; intros c Hc.
  rewrite <- isspace_lower_cp; apply E.
  unfold lower; apply in_map; exact Hc.
Qed.

(** Lower-casing leaves a valid phone as it is. *)
Lemma valid_phone_lower (p : pystr) : is_ascii p -> valid_phone p -> lower p = p.
Proof.
  unfold is_ascii; intros A [_ D]; unfold lower.
  rewrite <- (map_id p) at 2; apply map_ext_in; intros c Hc.
  rewrite Forall_forall in A, D; specialize (A c Hc); specialize (D c Hc).
  rewrite (isdigit_cp_ascii c A) in D; unfold is_ascii_digit in D.
  apply andb_true_iff in D; destruct D as [_ D]; apply N.leb_le in D.
  unfold lower_cp.
  destruct (N.leb_spec 65 c); [lia | reflexivity].
Qed.

Lemma valid_phone_no_space (p : pystr) : is_ascii p -> valid_phone p -> no_space p.
Proof.
  unfold is_ascii, no_space; intros A [_ D] Hin.
  rewrite Forall_forall in A, D; specialize (D _ Hin); discriminate.
Qed.

(** X19: adding then asking, through the loop.  For a name without
    spaces that is not blank and a phone of ten digits (ASCII
    characters), the line "add <name> <phone>" prints
    "Contact <name> added." and the line "phone <name>" after it prints
    "Contact name: <name>, phones: <phone>", with the name lower-cased
    in both; the record is stored under the lower-cased name. *)
Theorem main_add_then_phone (nm p : pystr) (w : World) :
  is_ascii nm -> is_ascii p ->
  no_space nm -> valid_name nm -> valid_phone p ->
  let w1 := snd (main_iteration (py "add " ++ nm ++ py " " ++ p) w) in
  let w2 := snd (main_iteration (py "phone " ++ nm) w1) in
  stdout w2
  = stdout w
    ++ [py "Contact " ++ lower nm ++ py " added.";
        py "Contact name: " ++ lower nm ++ py ", phones: " ++ p]
  /\ PyDict.get (lower nm) (records (address_book w2))
     = Some (contact (lower nm) p).
Proof.
  intros An Ap Sn Vn Vp; cbv zeta.
  assert (Sp : no_space p) by (apply valid_phone_no_space; assumption).
  assert (Fa : Forall no_space [py "add"; nm; p]).
  { repeat constructor; try assumption; vm_compute; intuition discriminate. }
  assert (Fp : Forall no_space [py "phone"; nm]).
  { repeat constructor; try assumption; vm_compute; intuition discriminate. }
  change (py "add " ++ nm ++ py " " ++ p)
    with (join (py " ") [py "add"; nm; p]).
  change (py "phone " ++ nm) with (join (py " ") [py "phone"; nm]).
  destruct (add_line_run (py "add") nm p [] w Fa eq_refl) as [msg [E ->]].
  rewrite (valid_phone_lower p Ap Vp) in *.
  rewrite (add_contact_ok (lower nm) p (address_book w)) in *;
    try (apply valid_name_iff, valid_name_lower; exact Vn);
    try (apply valid_phone_iff; exact Vp).
  injection E as <-; cbn [snd].
  rewrite (phone_line_run (py "phone") nm [] _ Fp eq_refl).
  cbn [snd address_book stdout records].
  rewrite get_setitem_same; split; [|reflexivity].
  rewrite <- app_assoc; reflexivity.
Qed.

Lemma main_add_then_phone_witness :
  stdout
    (snd (main_iteration (py "phone " ++ py "John")
            (snd (main_iteration
                    (py "add " ++ py "John" ++ py " " ++ py "1234567890")
                    {| address_book := AddressBook_init; stdout := [] |}))))
  = [] ++ [py "Contact " ++ lower (py "John") ++ py " added.";
           py "Contact name: " ++ lower (py "John") ++ py ", phones: "
             ++ py "1234567890"].
Proof.
  assert (An : is_ascii (py "John")) by (unfold is_ascii; simpl; repeat constructor).
  assert (Ap : is_ascii (py "1234567890"))
    by (unfold is_ascii; simpl; repeat constructor).
  assert (Sn : no_space (py "John")) by (vm_compute; intuition discriminate).
  assert (Vn : valid_name (py "John")) by (vm_compute; discriminate).
  assert (Vp : valid_phone (py "1234567890")).
  { split; [reflexivity | repeat constructor]. }
  exact (proj1 (main_add_then_phone (py "John") (py "1234567890")
                  {| address_book := AddressBook_init; stdout := [] |}
                  An Ap Sn Vn Vp)).
Defined.

(** ** What the loop keeps *)

Lemma no_upper_sub (s p : pystr) :
  no_upper s -> (forall c, In c p -> In c s) -> no_upper p.
Proof.
  unfold no_upper; rewrite !Forall_forall; intros H S c Hc; apply H, S, Hc.
Qed.

Lemma keys_setitem_Forall {V} (P : pystr -> Prop) (k : pystr) (v : V)
    (d : PyDict.t V) :
  Forall P (PyDict.keys d) -> P k -> Forall P (PyDict.keys (PyDict.setitem k v d)).
Proof.
  rewrite !Forall_forall; intros F Pk x Hx.
  apply keys_setitem in Hx; destruct Hx as [->|Hx]; auto.
Qed.

Lemma turn_keeps (com : pystr) (book book' : AddressBook) (fl : flow)
    (out : list pystr) :
  turn com book fl book' out ->
  no_upper com ->
  cli_book book
  /\ Forall (fun k => no_space k /\ no_upper k) (PyDict.keys (records book)) ->
  cli_book book'
  /\ Forall (fun k => no_space k /\ no_upper k) (PyDict.keys (records book')).
Proof.
  intros T U [C K]; destruct T; try (split; assumption).
  assert (Hin : In nm (split com space)) by (rewrite H0; simpl; auto).
  destruct (split_pieces com space nm Hin) as [Sn Sub].
  pose proof (cli_book_add_contact [nm; number] book C) as C'.
  rewrite H1 in C'; cbn [snd] in C'; split; [exact C'|].
  destruct (add_contact_book [nm; number] book) as [E|[n [p [_ [_ [A E]]]]]];
    rewrite H1 in E; cbn [snd] in E; subst book'; [exact K|].
  injection A as <- <-; cbn [records].
  apply keys_setitem_Forall; [exact K|].
  split; [exact Sn | exact (no_upper_sub com nm U Sub)].
Qed.

Lemma main_loop_keeps (lines : list pystr) (w : World) :
  cli_book (address_book w)
  /\ Forall (fun k => no_space k /\ no_upper k)
       (PyDict.keys (records (address_book w))) ->
  cli_book (address_book (snd (main_loop lines w)))
  /\ Forall (fun k => no_space k /\ no_upper k)
       (PyDict.keys (records (address_book (snd (main_loop lines w))))).
Proof.
  revert w; induction lines as [|raw rest IH]; intros w I; [exact I|].
  rewrite main_loop_cons.
  destruct (main_iteration_turn raw w) as [fl [book' [out [T E]]]].
  pose proof (turn_keeps _ _ _ _ _ T (lower_no_upper raw) I) as I'.
  rewrite E; destruct fl; [apply IH; exact I' | exact I'].
Qed.

(** X20: whatever lines of ASCII characters a session reads, the book
    [main] ends with has every record under its own name, with exactly
    one phone, of ten digits, and a name that is not blank; and no name
    in it holds a space or a letter A-Z. *)
Theorem main_book_invariant (lines : list pystr) :
  Forall is_ascii lines ->
  let book := address_book (snd (main lines)) in
  cli_book book
  /\ Forall (fun k => no_space k /\ no_upper k) (PyDict.keys (records book)).
Proof.
  intros _; cbv zeta; unfold main; apply main_loop_keeps.
  cbn [address_book]; split; [exact cli_book_init | constructor].
Qed.

Lemma main_book_invariant_witness :
  cli_book (address_book (snd (main [py "add John 1234567890"; py "exit"]))).
Proof.
  assert (A : Forall is_ascii [py "add John 1234567890"; py "exit"]).
  { unfold is_ascii; simpl; repeat constructor. }
  exact (proj1 (main_book_invariant [py "add John 1234567890"; py "exit"] A)).
Defined.

Lemma usage_run (cmd : pystr) (rest : list pystr) (w : World) :
  Forall no_space (cmd :: rest) ->
  (startswith (lower cmd) (py "add") = true ->
   (List.length rest < 2)%nat ->
   main_iteration (join (py " ") (cmd :: rest)) w
   = (Ok Continue,
      {| address_book := address_book w;
         stdout := stdout w ++ [py "Invalid format. Use: add [name] [number]"] |}))
  /\ (startswith (lower cmd) (py "phone") = true ->
      rest = [] ->
      main_iteration (join (py " ") (cmd :: rest)) w
      = (Ok Continue,
         {| address_book := address_book w;
            stdout := stdout w ++ [py "Invalid format. Use: phone [name]"] |})).
Proof.
  intros F.
  assert (Fl : Forall (fun q => ~ In space q) (map lower (cmd :: rest))).
  { apply Forall_forall; intros q Hq; apply in_map_iff in Hq.
    destruct Hq as [x [<- Hx]]; apply no_space_lower.
    rewrite Forall_forall in F; exact (F x Hx). }
  assert (St : forall word,
             startswith (lower cmd) word = true ->
             startswith (join [space] (map lower (cmd :: rest))) word = true).
  { intros word S; cbn [map]; destruct (map lower rest);
      [exact S | rewrite join_cons; apply startswith_app; exact S]. }
  unfold main_iteration; change (py " ") with [space].
  rewrite lower_join_space; split.
  - intros S L; pose proof (St _ S) as Sc.
    rewrite (startswith_not_hello _ (or_introl Sc)), Sc.
    cbn [map] in *; rewrite (split_join _ _ _ Fl).
    change 3 with (N.of_nat 3); rewrite of_nat_ltb.
    destruct rest as [|a [|b rest]]; [reflexivity | reflexivity|].
    simpl in L; lia.
  - intros S ->; pose proof (St _ S) as Sc.
    rewrite (startswith_not_hello _ (or_intror Sc)), (phone_not_add _ Sc), Sc.
    cbn [map] in *; rewrite (split_join _ _ _ Fl); reflexivity.
Qed.

(** X21: lines with too few tokens.  A line of one or two tokens whose
    first token lower-cases to a word that begins with "add" prints
    "Invalid format. Use: add [name] [number]"; a line of one token that
    lower-cases to a word beginning with "phone" prints
    "Invalid format. Use: phone [name]".  Neither calls a handler nor
    changes the book (tokens of ASCII characters without spaces). *)
Theorem main_usage (cmd : pystr) (rest : list pystr) (w : World) :
  Forall is_ascii (cmd :: rest) ->
  Forall no_space (cmd :: rest) ->
  (startswith (lower cmd) (py "add") = true ->
   (List.length rest < 2)%nat ->
   main_iteration (join (py " ") (cmd :: rest)) w
   = (Ok Continue,
      {| address_book := address_book w;
         stdout := stdout w ++ [py "Invalid format. Use: add [name] [number]"] |}))
  /\ (startswith (lower cmd) (py "phone") = true ->
      rest = [] ->
      main_iteration (join (py " ") (cmd :: rest)) w
      = (Ok Continue,
         {| address_book := address_book w;
            stdout := stdout w ++ [py "Invalid format. Use: phone [name]"] |})).
Proof. intros _; apply usage_run. Qed.

Lemma main_usage_witness :
  main_iteration (join (py " ") [py "ADD"; py "ann"])
    {| address_book := AddressBook_init; stdout := [] |}
  = (Ok Continue,
     {| address_book := AddressBook_init;
        stdout := [] ++ [py "Invalid format. Use: add [name] [number]"] |}).
Proof.
  assert (A : Forall is_ascii [py "ADD"; py "ann"]).
  { unfold is_ascii; simpl; repeat constructor. }
  assert (B : Forall no_space [py "ADD"; py "ann"]).
  { repeat constructor; vm_compute; intuition discriminate. }
  assert (L : (List.length [py "ann"] < 2)%nat) by (simpl; lia).
  exact (proj1 (main_usage (py "ADD") [py "ann"]
                  {| address_book := AddressBook_init; stdout := [] |} A B)
           eq_refl L).
Defined.

(** X22: deleting a name twice is deleting it once: the second [delete]
    finds the name gone, raises nothing and leaves the book as the
    first left it. *)
Theorem delete_twice (nm : pystr) (book : AddressBook) :
  PyDict.wf (records book) ->
  delete nm (snd (delete nm book)) = (Ok tt, snd (delete nm book)).
Proof.
  intros W; rewrite (delete_run nm book); cbn [snd].
  destruct (PyDict.contains nm (records book)) eqn:C.
  - rewrite delete_run; cbn [records]; unfold PyDict.contains.
    rewrite (get_remove_same nm (records book) W); reflexivity.
  - rewrite delete_run, C; reflexivity.
Qed.

Lemma delete_twice_witness :
  delete (py "ann")
    (snd (delete (py "ann")
            (snd (add_record (contact (py "ann") (py "0123456789"))
                    AddressBook_init))))
  = (Ok tt,
     snd (delete (py "ann")
            (snd (add_record (contact (py "ann") (py "0123456789"))
                    AddressBook_init)))).
Proof.
  assert (W : PyDict.wf
                (records (snd (add_record (contact (py "ann") (py "0123456789"))
                                 AddressBook_init)))).
  { repeat constructor; simpl; tauto. }
  exact (delete_twice (py "ann") _ W).
Defined.
